(** * LatticeMatch: circular angular-interval arithmetic

    A shallow embedding of the three classes of the LatticeMatch core,

      - [angleclass]  (angleclass.h / angleclass.cpp): an angle kept in one turn,
      - [anglerange]  (anglerange.h / anglerange.cpp): one clockwise arc,
      - [angleset]    (angleset.h / angleset.cpp): a collection of disjoint arcs,

    followed by the properties of the specification that concern them.

    Numbers.  The C++ code stores angles in [double].  Two readings of a
    [double] are used below.

      - In the modules [angleclass], [anglerange] and [angleset] a [double] is
        read as the real number it denotes and arithmetic is exact.  The
        comparisons [<], [<=], [>], [>=], [==] and [fmin]/[fmax] of finite
        doubles are exact operations, so for everything that only compares
        and selects bounds (membership, [overlap], [combine], the merge pass)
        this reading is what the machine computes.  Only the arithmetic of
        [shiftinrange] and of the four angle operators is idealised.
      - The module [Binary64] repeats [angleclass::shiftinrange] and the
        operators on IEEE 754 binary64 numbers (Rocq's primitive floats), where
        rounding, infinities and NaN are what the hardware gives. *)

From Stdlib Require Import String.
From Stdlib Require Import Reals Lra Lia ZArith List Bool Zfloor Permutation.
From Stdlib Require Import PrimFloat SpecFloat FloatOps.
Import ListNotations.

(* ===================================================================== *)
(** * Doubles read as real numbers *)
(* ===================================================================== *)

Module Double.
Local Open Scope R_scope.

(** The relational operators of C++ on [double], as booleans. *)
Definition ltb (x y : R) : bool := if Rlt_dec x y then true else false.
Definition leb (x y : R) : bool := if Rle_dec x y then true else false.
Definition gtb (x y : R) : bool := ltb y x.
Definition geb (x y : R) : bool := leb y x.
Definition eqb (x y : R) : bool := if Req_dec_T x y then true else false.
Definition neqb (x y : R) : bool := negb (eqb x y).

(** [fmax] and [fmin] of <cmath>. *)
Definition fmax (x y : R) : R := if Rle_dec x y then y else x.
Definition fmin (x y : R) : R := if Rle_dec x y then x else y.

(** [floor] of <cmath>, returned as a double. *)
Definition floor (x : R) : R := IZR (Zfloor x).

(** [M_PI] of <cmath>. *)
Definition M_PI : R := PI.

(** Degrees to radians, as main.cpp converts its arguments: [x*M_PI/180.0]. *)
Definition degrees (x : R) : R := x * M_PI / 180.

End Double.

(* ===================================================================== *)
(** * Exceptions *)
(* ===================================================================== *)

(** A C++ call either returns a value or leaves by [throw].  The only exception
    of the code is [std::out_of_range]. *)
Inductive outcome (A : Type) : Type :=
| Returns (a : A)
| Throws_out_of_range (what : String.string).

Arguments Returns {A} a.
Arguments Throws_out_of_range {A} what.

Definition bind {A B : Type} (c : outcome A) (k : A -> outcome B) : outcome B :=
  match c with
  | Returns a => k a
  | Throws_out_of_range w => Throws_out_of_range w
  end.

Notation "'do' x <- c ; k" := (bind c (fun x => k))
  (at level 10, x name, c at level 100, k at level 200).

(* ===================================================================== *)
(** * angleclass *)
(* ===================================================================== *)

Module angleclass.
Local Open Scope R_scope.
Import Double.

(** [class angleclass { double value; ... }] *)
Record t : Type := mk { value : R }.

(** [double angleclass::shiftinrange(const double number)]:
    [return(number-2.0*M_PI*floor(number/(2.0*M_PI)));] *)
Definition shiftinrange (number : R) : R :=
  number - 2 * M_PI * floor (number / (2 * M_PI)).

(** [angleclass::angleclass()]: [value=0.0;] *)
Definition default : t := mk 0.

(** [angleclass::angleclass(const double setme)]:
    [value=shiftinrange(setme);].  This constructor is also the implicit
    conversion from [double] to [angleclass]. *)
Definition of_double (setme : R) : t := mk (shiftinrange setme).

(** [void angleclass::setval(const double setme)] *)
Definition setval (this : t) (setme : R) : t := mk (shiftinrange setme).

(** [double angleclass::getval() const] *)
Definition getval (this : t) : R := value this.

(** The four arithmetic operators: the raw scalars are combined and the
    result goes through the constructor. *)
Definition op_mul (this other : t) : t := of_double (value this * value other).
Definition op_sub (this other : t) : t := of_double (value this - value other).
Definition op_add (this other : t) : t := of_double (value this + value other).
Definition op_div (this other : t) : t := of_double (value this / value other).

(** The six relational operators compare the stored scalars. *)
Definition op_lt (this other : t) : bool := ltb (value this) (value other).
Definition op_gt (this other : t) : bool := gtb (value this) (value other).
Definition op_le (this other : t) : bool := leb (value this) (value other).
Definition op_ge (this other : t) : bool := geb (value this) (value other).
Definition op_eq (this other : t) : bool := eqb (value this) (value other).
Definition op_ne (this other : t) : bool := neqb (value this) (value other).

(** The class invariant the header announces: "keep its contents in the
    range between [0:2*pi[". *)
Definition inrange (a : t) : Prop := 0 <= value a < 2 * M_PI.

End angleclass.

(* ===================================================================== *)
(** * anglerange *)
(* ===================================================================== *)

Module anglerange.
Local Open Scope R_scope.
Import Double.

(** [typedef enum sorttype {SRT_LOWER,SRT_UPPER,SRT_SIZE} sorttype;]
    An enumeration object holds an integer; the enumerators are 0, 1 and 2,
    and the [switch] of the comparison operators has a [default:] for every
    other value. *)
Definition sorttype : Type := Z.
Definition SRT_LOWER : sorttype := 0%Z.
Definition SRT_UPPER : sorttype := 1%Z.
Definition SRT_SIZE : sorttype := 2%Z.

Record t : Type := mk {
  lowerborder : angleclass.t;
  upperborder : angleclass.t;
  upperset : bool;
  lowerset : bool;
  fullcircle : bool;
  sortby : sorttype
}.

(** [anglerange::anglerange()] *)
Definition default : t :=
  mk (angleclass.of_double 0) (angleclass.of_double 0) false false false SRT_SIZE.

(** [anglerange::anglerange(const angleclass &lower, const angleclass &upper)] *)
Definition make (lower upper : angleclass.t) : t :=
  mk lower upper true true false SRT_SIZE.

(** [bool anglerange::isempty() const]: [return(!upperset || !lowerset);] *)
Definition isempty (this : t) : bool := negb (upperset this) || negb (lowerset this).

Definition getupper (this : t) : angleclass.t := upperborder this.
Definition getlower (this : t) : angleclass.t := lowerborder this.

(** [void anglerange::setupper(const angleclass &newupper)] *)
Definition setupper (this : t) (newupper : angleclass.t) : t :=
  mk (lowerborder this) newupper true (lowerset this) (fullcircle this) (sortby this).

(** [void anglerange::setlower(const angleclass &newlower)] *)
Definition setlower (this : t) (newlower : angleclass.t) : t :=
  mk newlower (upperborder this) (upperset this) true (fullcircle this) (sortby this).

(** [void anglerange::setempty()]: the borders are left as they are. *)
Definition setempty (this : t) : t :=
  mk (lowerborder this) (upperborder this) false false false (sortby this).

(** [void anglerange::setsorttype(const anglerange::sorttype value)] *)
Definition setsorttype (this : t) (value : sorttype) : t :=
  mk (lowerborder this) (upperborder this) (upperset this) (lowerset this)
     (fullcircle this) value.

Definition getsorttype (this : t) : sorttype := sortby this.

(** [bool anglerange::iscircle() const]: [return(fullcircle && !isempty());] *)
Definition iscircle (this : t) : bool := fullcircle this && negb (isempty this).

(** [void anglerange::setcircle(bool value)] *)
Definition setcircle (this : t) (value : bool) : t :=
  if value
  then mk (angleclass.of_double 0) (angleclass.of_double 0) true true value (sortby this)
  else mk (lowerborder this) (upperborder this) (upperset this) (lowerset this)
          value (sortby this).

(** [bool anglerange::isinside(const angleclass &val) const] *)
Definition isinside (this : t) (val : angleclass.t) : bool :=
  if isempty this then false
  else if fullcircle this then true
  else if angleclass.op_gt (lowerborder this) (upperborder this)
  then angleclass.op_ge val (lowerborder this) || angleclass.op_le val (upperborder this)
  else angleclass.op_ge val (lowerborder this) && angleclass.op_le val (upperborder this).

(** Setting both borders of [retval], as every branch of [overlap] and
    [combine] does: [retval.setlower(l); retval.setupper(u);]. *)
Definition setboth (retval : t) (l u : angleclass.t) : t :=
  setupper (setlower retval l) u.

(** [anglerange anglerange::overlap(const anglerange &other) const].
    Where the C++ passes the [double] result of [fmax]/[fmin] to [setlower] or
    [setupper], the implicit conversion [angleclass(double)] runs; it is
    written out as [angleclass.of_double]. *)
Definition overlap (this other : t) : t :=
  let retval := setsorttype default (sortby this) in
  if negb (isempty this) && negb (isempty other) then
    if fullcircle this then
      setsorttype other (sortby this)
    else if fullcircle other then
      this
    else if angleclass.op_gt (lowerborder this) (upperborder this) then
      if angleclass.op_gt (getlower other) (getupper other) then
        setboth retval
          (angleclass.of_double
             (fmax (angleclass.getval (lowerborder this))
                   (angleclass.getval (getlower other))))
          (angleclass.of_double
             (fmin (angleclass.getval (upperborder this))
                   (angleclass.getval (getupper other))))
      else
        if angleclass.op_le (getupper other) (upperborder this)
           || angleclass.op_ge (getlower other) (lowerborder this)
        then setboth retval (getlower other) (getupper other)
        else if angleclass.op_ge (getupper other) (lowerborder this)
        then setboth retval (lowerborder this) (getupper other)
        else if angleclass.op_le (getlower other) (upperborder this)
        then setboth retval (getlower other) (upperborder this)
        else retval
    else
      if angleclass.op_gt (getlower other) (getupper other) then
        if angleclass.op_le (upperborder this) (getupper other)
           || angleclass.op_ge (lowerborder this) (getlower other)
        then setboth retval (lowerborder this) (upperborder this)
        else if angleclass.op_le (lowerborder this) (getupper other)
        then setboth retval (lowerborder this) (getupper other)
        else if angleclass.op_ge (upperborder this) (getlower other)
        then setboth retval (getlower other) (upperborder this)
        else retval
      else
        let curmax := fmin (angleclass.getval (getupper other))
                           (angleclass.getval (upperborder this)) in
        let curmin := fmax (angleclass.getval (getlower other))
                           (angleclass.getval (lowerborder this)) in
        if geb curmax curmin
        then setboth retval (angleclass.of_double curmin) (angleclass.of_double curmax)
        else retval
  else retval.

(** [anglerange anglerange::combine(const anglerange &other) const].
    The first test, [if(fullcircle) retval = *this;], is a statement of its
    own: the ladder that follows starts at [if(other.fullcircle)], so a
    full-circle receiver still runs through the four-way case split when
    [other] is no full circle. *)
Definition combine (this other : t) : t :=
  let retval := setsorttype default (sortby this) in
  if negb (isempty this) && negb (isempty other) then
    let retval := if fullcircle this then this else retval in
    if fullcircle other then
      setsorttype other (sortby this)
    else if angleclass.op_gt (lowerborder this) (upperborder this) then
      if angleclass.op_gt (getlower other) (getupper other) then
        if angleclass.op_le (lowerborder this) (upperborder other)
           || angleclass.op_le (lowerborder other) (upperborder this)
        then setcircle retval true
        else
          setboth retval
            (angleclass.of_double
               (fmin (angleclass.getval (lowerborder this))
                     (angleclass.getval (getlower other))))
            (angleclass.of_double
               (fmax (angleclass.getval (upperborder this))
                     (angleclass.getval (getupper other))))
      else
        if angleclass.op_le (getupper other) (upperborder this)
           || angleclass.op_ge (getlower other) (lowerborder this)
        then setboth retval (lowerborder this) (upperborder this)
        else if angleclass.op_le (lowerborder other) (upperborder this)
                && angleclass.op_ge (upperborder other) (lowerborder this)
        then setcircle retval true
        else if angleclass.op_ge (getupper other) (lowerborder this)
        then setboth retval (getlower other) (upperborder this)
        else if angleclass.op_le (getlower other) (upperborder this)
        then setboth retval (lowerborder this) (getupper other)
        else retval
    else
      if angleclass.op_gt (getlower other) (getupper other) then
        if angleclass.op_le (upperborder this) (getupper other)
           || angleclass.op_ge (lowerborder this) (getlower other)
        then setboth retval (getlower other) (getupper other)
        else if angleclass.op_le (lowerborder this) (getupper other)
                && angleclass.op_ge (upperborder this) (getlower other)
        then setcircle retval true
        else if angleclass.op_le (lowerborder this) (getupper other)
        then setboth retval (getlower other) (upperborder this)
        else if angleclass.op_ge (upperborder this) (getlower other)
        then setboth retval (lowerborder this) (getupper other)
        else retval
      else
        let curmax := fmin (angleclass.getval (getupper other))
                           (angleclass.getval (upperborder this)) in
        let curmin := fmax (angleclass.getval (getlower other))
                           (angleclass.getval (lowerborder this)) in
        if geb curmax curmin
        then
          setboth retval
            (angleclass.of_double
               (fmin (angleclass.getval (getlower other))
                     (angleclass.getval (lowerborder this))))
            (angleclass.of_double
               (fmax (angleclass.getval (getupper other))
                     (angleclass.getval (upperborder this))))
        else retval
  else retval.

(** The text of the exception of the comparison operators. *)
Definition invalid_sort_field : String.string :=
  "Invalid sort field set for anglerange! Go, debug."%string.

(** [bool anglerange::operator<(const anglerange &other) const] *)
Definition op_lt (this other : t) : outcome bool :=
  if isempty this || isempty other then Returns false
  else
    match sortby this with
    | 0%Z => Returns (angleclass.op_lt (lowerborder this) (lowerborder other))
    | 1%Z => Returns (angleclass.op_lt (upperborder this) (upperborder other))
    | 2%Z =>
        if fullcircle other then Returns (negb (fullcircle this))
        else if fullcircle this then Returns false
        else Returns (angleclass.op_lt
                        (angleclass.op_sub (upperborder this) (lowerborder this))
                        (angleclass.op_sub (upperborder other) (lowerborder other)))
    | _ => Throws_out_of_range invalid_sort_field
    end.

(** [bool anglerange::operator>(const anglerange &other) const] *)
Definition op_gt (this other : t) : outcome bool :=
  if isempty this || isempty other then Returns false
  else
    match sortby this with
    | 0%Z => Returns (angleclass.op_gt (lowerborder this) (lowerborder other))
    | 1%Z => Returns (angleclass.op_gt (upperborder this) (upperborder other))
    | 2%Z =>
        if fullcircle this then Returns (negb (fullcircle other))
        else if fullcircle other then Returns false
        else Returns (angleclass.op_gt
                        (angleclass.op_sub (upperborder this) (lowerborder this))
                        (angleclass.op_sub (upperborder other) (lowerborder other)))
    | _ => Throws_out_of_range invalid_sort_field
    end.

(** [bool anglerange::operator<=(const anglerange &other) const]:
    [return(!(operator>(other)));] behind the emptiness test. *)
Definition op_le (this other : t) : outcome bool :=
  if isempty this || isempty other then Returns false
  else do r <- op_gt this other; Returns (negb r).

(** [bool anglerange::operator>=(const anglerange &other) const] *)
Definition op_ge (this other : t) : outcome bool :=
  if isempty this || isempty other then Returns false
  else do r <- op_lt this other; Returns (negb r).

(** [bool anglerange::operator==(const anglerange &other) const] *)
Definition op_eq (this other : t) : bool :=
  if negb (isempty this) && negb (isempty other)
  then angleclass.op_eq (lowerborder this) (lowerborder other)
       && angleclass.op_eq (upperborder this) (upperborder other)
  else isempty this && isempty other.

(** [bool anglerange::operator!=(const anglerange &other) const] *)
Definition op_ne (this other : t) : bool := negb (op_eq this other).

(** Both borders obey the invariant of [angleclass]. *)
Definition inrange (r : t) : Prop :=
  angleclass.inrange (lowerborder r) /\ angleclass.inrange (upperborder r).

(** The sort modes the [switch] of the comparison operators has a case for. *)
Definition recognised (m : sorttype) : Prop :=
  m = SRT_LOWER \/ m = SRT_UPPER \/ m = SRT_SIZE.

End anglerange.

(* ===================================================================== *)
(** * angleset *)
(* ===================================================================== *)

Module angleset.
Import Double.

(** [class angleset { std::vector<anglerange> storage; bool consistent; ... }] *)
Record t : Type := mk {
  storage : list anglerange.t;
  consistent : bool
}.

(** ** The operations of [std::vector] the class uses

    An iterator is the index of the element it points to. *)

(** [*it] *)
Definition deref (v : list anglerange.t) (it : nat) : anglerange.t :=
  nth it v anglerange.default.

(** [*it = x;] *)
Fixpoint assign (v : list anglerange.t) (it : nat) (x : anglerange.t)
  : list anglerange.t :=
  match v, it with
  | [], _ => []
  | _ :: r, O => x :: r
  | y :: r, S it' => y :: assign r it' x
  end.

(** [v.erase(it);] *)
Fixpoint erase (v : list anglerange.t) (it : nat) : list anglerange.t :=
  match v, it with
  | [], _ => []
  | _ :: r, O => r
  | y :: r, S it' => y :: erase r it'
  end.

(** [v.push_back(x); v.back().setsorttype(anglerange::SRT_LOWER);] *)
Definition push_back_lower (v : list anglerange.t) (x : anglerange.t)
  : list anglerange.t :=
  v ++ [anglerange.setsorttype x anglerange.SRT_LOWER].

(** ** Constructors *)

(** [angleset::angleset()] *)
Definition default : t := mk [] true.

(** [angleset::angleset(const anglerange &firstrange)] *)
Definition of_range (firstrange : anglerange.t) : t :=
  if negb (anglerange.isempty firstrange)
  then mk (push_back_lower [] firstrange) true
  else mk [] true.

(** [angleset::angleset(const angleclass &firstlower, const angleclass &firstupper)] *)
Definition of_bounds (firstlower firstupper : angleclass.t) : t :=
  mk (push_back_lower [] (anglerange.make firstlower firstupper)) true.

(** ** The merge pass, [void angleset::combine()]

    The inner loop [while(compare!=curpos)] walks [compare] from the last
    element down to [curpos]; [d] is the distance [compare - curpos], which
    drops by one in either branch (in the first one the element at [compare]
    is erased after [compare--]). *)
Fixpoint combine_while (d : nat) (curpos : nat) (storage : list anglerange.t)
  : list anglerange.t :=
  match d with
  | O => storage
  | S d' =>
      let compare := curpos + d in
      let tmp := anglerange.combine (deref storage curpos) (deref storage compare) in
      if negb (anglerange.isempty tmp)
      then combine_while d' curpos (erase (assign storage curpos tmp) compare)
      else combine_while d' curpos storage
  end.

(** The outer loop [for(curpos=storage.end()-2; curpos>=storage.begin(); curpos--)];
    [n] counts the positions still to visit, so [curpos] is [n - 1], and
    [compare] starts at [storage.end()-1] of the storage as it is then. *)
Fixpoint combine_for (n : nat) (storage : list anglerange.t) : list anglerange.t :=
  match n with
  | O => storage
  | S curpos =>
      combine_for curpos
        (combine_while (length storage - 1 - curpos) curpos storage)
  end.

Definition combine (this : t) : t :=
  mk (if 2 <=? length (storage this)
      then combine_for (length (storage this) - 1) (storage this)
      else storage this)
     true.

(** ** Queries and mutators *)

(** [bool angleset::isempty() const] *)
Definition isempty (this : t) : bool :=
  match storage this with [] => true | _ => false end.

(** [bool angleset::iscircle()]; it may run the merge pass, so the set is
    returned as well. *)
Definition iscircle (this : t) : bool * t :=
  let this := if negb (consistent this) then combine this else this in
  (match storage this with
   | [] => false
   | front :: _ => anglerange.iscircle front
   end, this).

(** [void angleset::add(const anglerange &value)] *)
Definition add (this : t) (value : anglerange.t) : t :=
  if negb (anglerange.isempty value)
  then combine (mk (push_back_lower (storage this) value) (consistent this))
  else this.

(** [void angleset::add(const angleset &value)] *)
Definition add_set (this : t) (value : t) : t :=
  combine (mk (storage this ++ storage value) (consistent this)).

(** [void angleset::add(const double &lower, const double &upper)]; the two
    doubles are converted by [angleclass(double)]. *)
Definition add_bounds (this : t) (lower upper : R) : t :=
  combine (mk (push_back_lower (storage this)
                 (anglerange.make (angleclass.of_double lower)
                                  (angleclass.of_double upper)))
              (consistent this)).

(** [angleset angleset::overlap(const anglerange &other)] *)
Definition overlap (this : t) (other : anglerange.t) : t :=
  let this := if negb (consistent this) then combine this else this in
  fold_left (fun retval i => add retval (anglerange.overlap i other))
            (storage this) default.

(** [angleset angleset::overlap(const angleset &other)] *)
Definition overlap_set (this : t) (other : t) : t :=
  fold_left (fun retval i => add_set retval (overlap this i))
            (storage other) default.

(** [std::vector<anglerange> angleset::getranges()] *)
Definition getranges (this : t) : list anglerange.t := storage this.

(** [void angleset::clear()] *)
Definition clear (this : t) : t := mk [] (consistent this).

(** ** The merge pass as a fold

    The same pass written by recursion on the vector, used in the proofs:
    [scan cur tail] is the inner loop for the element [cur] against the
    elements [tail] to its right, last one first, and [merge] runs it for
    every position from the right end to the left one. *)
Fixpoint scan (cur : anglerange.t) (tail : list anglerange.t)
  : anglerange.t * list anglerange.t :=
  match tail with
  | [] => (cur, [])
  | c :: rest =>
      let (cur1, rest') := scan cur rest in
      let tmp := anglerange.combine cur1 c in
      if negb (anglerange.isempty tmp) then (tmp, rest') else (cur1, c :: rest')
  end.

Fixpoint merge (v : list anglerange.t) : list anglerange.t :=
  match v with
  | [] => []
  | x :: rest => let (x', rest') := scan x (merge rest) in x' :: rest'
  end.

(** ** What the claims speak about *)

(** No angle lies in both arcs. *)
Definition separated (a b : anglerange.t) : Prop :=
  forall v : angleclass.t,
    anglerange.isinside a v = true -> anglerange.isinside b v = true -> False.

(** The pairwise [combine] of any two distinct stored arcs is empty. *)
Definition pairwise_uncombinable (v : list anglerange.t) : Prop :=
  forall i j : nat,
    (i < length v)%nat -> (j < length v)%nat -> i <> j ->
    anglerange.isempty (anglerange.combine (deref v i) (deref v j)) = true.

(** The sets a program can build: the three constructors, the mutators and
    the two intersections (the arguments carry angles that obey the
    invariant of [angleclass]).  [void angleset::sort()] is
    [std::sort(storage.begin(),storage.end())]; all that is used of it is
    that it leaves the stored arcs in some order. *)
Inductive reachable : t -> Prop :=
| reach_default : reachable default
| reach_of_range firstrange :
    anglerange.inrange firstrange -> reachable (of_range firstrange)
| reach_of_bounds firstlower firstupper :
    angleclass.inrange firstlower -> angleclass.inrange firstupper ->
    reachable (of_bounds firstlower firstupper)
| reach_add this value :
    reachable this -> anglerange.inrange value -> reachable (add this value)
| reach_add_bounds this lower upper :
    reachable this -> reachable (add_bounds this lower upper)
| reach_add_set this value :
    reachable this -> reachable value -> reachable (add_set this value)
| reach_clear this : reachable this -> reachable (clear this)
| reach_iscircle this : reachable this -> reachable (snd (iscircle this))
| reach_overlap this other :
    reachable this -> anglerange.inrange other -> reachable (overlap this other)
| reach_overlap_set this other :
    reachable this -> reachable other -> reachable (overlap_set this other)
| reach_sort this sorted :
    reachable this -> Permutation (storage this) sorted ->
    reachable (mk sorted (consistent this)).

(** The state the merge pass establishes: borders in range and no angle
    shared by two stored arcs. *)
Definition apart (v : list anglerange.t) : Prop :=
  Forall anglerange.inrange v /\ ForallOrdPairs separated v.

End angleset.

(* ===================================================================== *)
(** * angleclass on IEEE 754 binary64 *)
(* ===================================================================== *)

Module Binary64.
Local Open Scope float_scope.

(** [floor] of <cmath>: the largest integral value not above [x]; zeros,
    infinities and NaN are returned as they are.  It is computed on the
    sign, mantissa and exponent of [x] (value [m * 2^e]). *)
Definition floor (x : float) : float :=
  match Prim2SF x with
  | S754_finite s m e =>
      if (0 <=? e)%Z then x
      else
        let q := Z.shiftr (Zpos m) (- e) in
        let z := if s
                 then (if (Z.shiftl q (- e) =? Zpos m)%Z then - q else - (q + 1))%Z
                 else q in
        match z with
        | Z0 => if s then neg_zero else zero
        | _ => SF2Prim (binary_normalize prec emax z 0 false)
        end
  | _ => x
  end.

(** [M_PI] of <cmath>: the double nearest to pi, 3.141592653589793. *)
Definition M_PI : float := 0x1.921fb54442d18p+1.

(** [double angleclass::shiftinrange(const double number)] *)
Definition shiftinrange (number : float) : float :=
  number - 2 * M_PI * floor (number / (2 * M_PI)).

Record angleclass : Type := mk { value : float }.

(** [angleclass::angleclass(const double setme)] *)
Definition of_double (setme : float) : angleclass := mk (shiftinrange setme).

Definition getval (this : angleclass) : float := value this.

Definition op_mul (this other : angleclass) : angleclass :=
  of_double (value this * value other).
Definition op_sub (this other : angleclass) : angleclass :=
  of_double (value this - value other).
Definition op_add (this other : angleclass) : angleclass :=
  of_double (value this + value other).
Definition op_div (this other : angleclass) : angleclass :=
  of_double (value this / value other).

(** [0 <= x && x < 2.0*M_PI], the range the header announces. *)
Definition inrange (x : float) : bool := (0 <=? x) && (x <? 2 * M_PI).

End Binary64.

(* ===================================================================== *)
(** * The case split of [overlap] and [combine] on the four borders *)
(* ===================================================================== *)

(** Behind the tests for empty and full-circle operands, [overlap] and
    [combine] decide from the four stored scalars alone whether [retval] is
    left as it is, made a full circle, or given two borders.  The two
    ladders are repeated here on the scalars; [combine_eq] and [overlap_eq]
    below show that the member functions compute exactly this. *)
Module Ladder.
Local Open Scope R_scope.
Import Double.

Inductive shape : Type :=
| Untouched
| Circle
| Borders (l u : R).

Definition install (retval : anglerange.t) (s : shape) : anglerange.t :=
  match s with
  | Untouched => retval
  | Circle => anglerange.setcircle retval true
  | Borders l u =>
      anglerange.setboth retval (angleclass.of_double l) (angleclass.of_double u)
  end.

Definition combine_ladder (l1 u1 l2 u2 : R) : shape :=
  if gtb l1 u1 then
    if gtb l2 u2 then
      if leb l1 u2 || leb l2 u1 then Circle
      else Borders (fmin l1 l2) (fmax u1 u2)
    else
      if leb u2 u1 || geb l2 l1 then Borders l1 u1
      else if leb l2 u1 && geb u2 l1 then Circle
      else if geb u2 l1 then Borders l2 u1
      else if leb l2 u1 then Borders l1 u2
      else Untouched
  else
    if gtb l2 u2 then
      if leb u1 u2 || geb l1 l2 then Borders l2 u2
      else if leb l1 u2 && geb u1 l2 then Circle
      else if leb l1 u2 then Borders l2 u1
      else if geb u1 l2 then Borders l1 u2
      else Untouched
    else
      if geb (fmin u2 u1) (fmax l2 l1)
      then Borders (fmin l2 l1) (fmax u2 u1)
      else Untouched.

Definition overlap_ladder (l1 u1 l2 u2 : R) : shape :=
  if gtb l1 u1 then
    if gtb l2 u2 then Borders (fmax l1 l2) (fmin u1 u2)
    else
      if leb u2 u1 || geb l2 l1 then Borders l2 u2
      else if geb u2 l1 then Borders l1 u2
      else if leb l2 u1 then Borders l2 u1
      else Untouched
  else
    if gtb l2 u2 then
      if leb u1 u2 || geb l1 l2 then Borders l1 u1
      else if leb l1 u2 then Borders l1 u2
      else if geb u1 l2 then Borders l2 u1
      else Untouched
    else
      if geb (fmin u2 u1) (fmax l2 l1)
      then Borders (fmax l2 l1) (fmin u2 u1)
      else Untouched.

(** The angles of the arc from [l] clockwise to [u], both ends included:
    what [isinside] tests on an arc that is neither empty nor a full circle. *)
Definition inarc (l u x : R) : Prop :=
  (u < l /\ (l <= x \/ x <= u)) \/ (l <= u /\ l <= x <= u).

(** Two arcs meet exactly when one holds the lower border of the other. *)
Definition touching (l1 u1 l2 u2 : R) : Prop :=
  inarc l2 u2 l1 \/ inarc l1 u1 l2.

(** An arc with both borders set, written out field by field. *)
Definition arc (l u : R) (fc : bool) (m : anglerange.sorttype) : anglerange.t :=
  anglerange.mk (angleclass.mk l) (angleclass.mk u) true true fc m.

End Ladder.

(* ===================================================================== *)
(** * The driver, main.cpp *)
(* ===================================================================== *)

Module Driver.
Local Open Scope R_scope.
Import Double.

(** The angles of the command line, given in degrees, are brought into one
    turn and converted:
    [commargs[ALPHA]=(commargs[ALPHA]-360*floor(commargs[ALPHA]/360.0))*M_PI/180.0;] *)
Definition sanitize_angle (x : R) : R :=
  (x - 360 * floor (x / 360)) * M_PI / 180.

(** What is printed for a border: [i.getlower().getval()*180/M_PI]. *)
Definition to_degrees (radians : R) : R := radians * 180 / M_PI.

(** The loops of the drivers that keep their ranges in arrays:
    [for(i...) for(j...) { anglerange tmp = pxranges[i].overlap(qxranges[j]);
                           if(!(tmp.isempty())) xoverlaps.push_back(tmp); }] *)
Definition collect_overlaps (pxranges qxranges : list anglerange.t)
  : list anglerange.t :=
  flat_map
    (fun p =>
       flat_map
         (fun q =>
            let tmp := anglerange.overlap p q in
            if negb (anglerange.isempty tmp) then [tmp] else [])
         qxranges)
    pxranges.

(** The last stage of the driver that keeps its ranges in sets:
    [coincident=xoverlaps; coincident.add(yoverlaps);] and
    [angleset commensurate = xoverlaps.overlap(yoverlaps);]. *)
Definition coincident (xoverlaps yoverlaps : angleset.t) : angleset.t :=
  angleset.add_set xoverlaps yoverlaps.

Definition commensurate (xoverlaps yoverlaps : angleset.t) : angleset.t :=
  angleset.overlap_set xoverlaps yoverlaps.

End Driver.

(* ===================================================================== *)
(** * Notions used to state more properties *)
(* ===================================================================== *)

Module Cover.
Local Open Scope R_scope.

(** Some arc of the vector holds the angle. *)
Definition inside_some (v : list anglerange.t) (x : angleclass.t) : bool :=
  existsb (fun r => anglerange.isinside r x) v.

(** What every arc kept in a set satisfies: it is not empty and its sort
    mode is [SRT_LOWER]. *)
Definition stored (r : anglerange.t) : Prop :=
  anglerange.isempty r = false /\ anglerange.sortby r = anglerange.SRT_LOWER.

(** The clockwise sweep from the lower to the upper border. *)
Definition sweep (r : anglerange.t) : R :=
  let l := angleclass.value (anglerange.lowerborder r) in
  let u := angleclass.value (anglerange.upperborder r) in
  if Double.leb l u then u - l else u - l + 2 * Double.M_PI.

(** The key the three sort modes compare by (a full circle counts as a
    sweep of a whole turn, above every other sweep). *)
Definition sort_key (m : anglerange.sorttype) (r : anglerange.t) : R :=
  if (m =? anglerange.SRT_LOWER)%Z then angleclass.value (anglerange.lowerborder r)
  else if (m =? anglerange.SRT_UPPER)%Z
       then angleclass.value (anglerange.upperborder r)
       else if anglerange.fullcircle r then 2 * Double.M_PI
            else angleclass.value
                   (angleclass.op_sub (anglerange.upperborder r)
                                      (anglerange.lowerborder r)).

End Cover.

(* ===================================================================== *)
(** * Properties *)
(* ===================================================================== *)

(** ** Comparisons of doubles *)

Section DoubleFacts.
Local Open Scope R_scope.
Import Double.

Lemma ltb_true x y : ltb x y = true <-> x < y.
Proof. unfold ltb; destruct (Rlt_dec x y); split; intros; try easy; lra. Qed.

Lemma leb_true x y : leb x y = true <-> x <= y.
Proof. unfold leb; destruct (Rle_dec x y); split; intros; try easy; lra. Qed.

Lemma ltb_false x y : ltb x y = false <-> y <= x.
Proof. unfold ltb; destruct (Rlt_dec x y); split; intros; try easy; lra. Qed.

Lemma leb_false x y : leb x y = false <-> y < x.
Proof. unfold leb; destruct (Rle_dec x y); split; intros; try easy; lra. Qed.

Lemma eqb_refl x : eqb x x = true.
Proof. unfold eqb; destruct (Req_dec_T x x); easy. Qed.

Lemma eqb_true x y : eqb x y = true <-> x = y.
Proof. unfold eqb; destruct (Req_dec_T x y); split; intros; easy. Qed.

Lemma eqb_false x y : eqb x y = false <-> x <> y.
Proof. unfold eqb; destruct (Req_dec_T x y); split; intros; easy. Qed.

Lemma fmin_left x y : x <= y -> fmin x y = x.
Proof. unfold fmin; destruct (Rle_dec x y); intros; lra. Qed.

Lemma fmin_right x y : y < x -> fmin x y = y.
Proof. unfold fmin; destruct (Rle_dec x y); intros; lra. Qed.

Lemma fmax_right x y : x <= y -> fmax x y = y.
Proof. unfold fmax; destruct (Rle_dec x y); intros; lra. Qed.

Lemma fmax_left x y : y < x -> fmax x y = x.
Proof. unfold fmax; destruct (Rle_dec x y); intros; lra. Qed.

Lemma two_pi_pos : 0 < 2 * M_PI.
Proof. unfold M_PI; generalize PI_RGT_0; lra. Qed.

End DoubleFacts.

(** ** Normalisation in exact arithmetic *)

Section Normalisation.
Local Open Scope R_scope.
Import Double.

(** The quotient [number/(2 pi)] lies between its floor and the next integer;
    multiplied back by [2 pi] this bounds [number]. *)
Lemma floor_turns (x : R) :
  2 * M_PI * floor (x / (2 * M_PI)) <= x
  < 2 * M_PI * floor (x / (2 * M_PI)) + 2 * M_PI.
Proof.
  pose proof two_pi_pos as Hp.
  pose proof (Zfloor_bound (x / (2 * M_PI))) as [Hlo Hhi].
  unfold floor.
  assert (Hx : x = x / (2 * M_PI) * (2 * M_PI)) by (field; lra).
  split.
  - rewrite Hx at 2. rewrite Rmult_comm. apply Rmult_le_compat_r; lra.
  - rewrite Hx at 1.
    replace (2 * M_PI * IZR (Zfloor (x / (2 * M_PI))) + 2 * M_PI)
      with ((IZR (Zfloor (x / (2 * M_PI))) + 1) * (2 * M_PI)) by ring.
    apply Rmult_lt_compat_r; lra.
Qed.

Lemma shiftinrange_range (x : R) :
  0 <= angleclass.shiftinrange x < 2 * M_PI.
Proof. unfold angleclass.shiftinrange; pose proof (floor_turns x); lra. Qed.

Lemma shiftinrange_id (x : R) :
  0 <= x < 2 * M_PI -> angleclass.shiftinrange x = x.
Proof.
  intros [H0 H1]. pose proof two_pi_pos as Hp.
  unfold angleclass.shiftinrange, floor.
  rewrite (Zfloor_eq 0).
  - simpl; ring.
  - simpl. split.
    + apply Rmult_le_reg_r with (2 * M_PI); [lra|].
      unfold Rdiv; rewrite Rmult_assoc, Rinv_l by lra. lra.
    + apply Rmult_lt_reg_r with (2 * M_PI); [lra|].
      unfold Rdiv; rewrite Rmult_assoc, Rinv_l by lra. lra.
Qed.

Lemma shiftinrange_period (x : R) (k : Z) :
  angleclass.shiftinrange (x + 2 * M_PI * IZR k) = angleclass.shiftinrange x.
Proof.
  pose proof two_pi_pos as Hp.
  unfold angleclass.shiftinrange, floor.
  replace ((x + 2 * M_PI * IZR k) / (2 * M_PI)) with (x / (2 * M_PI) + IZR k)
    by (field; lra).
  rewrite Zfloor_addz, plus_IZR. ring.
Qed.

Lemma of_double_inrange (x : R) : angleclass.inrange (angleclass.of_double x).
Proof. apply shiftinrange_range. Qed.

Lemma of_double_id (a : angleclass.t) :
  angleclass.inrange a -> angleclass.of_double (angleclass.value a) = a.
Proof.
  destruct a as [x]; unfold angleclass.inrange, angleclass.of_double; simpl.
  intros H; now rewrite shiftinrange_id.
Qed.

Lemma shiftinrange_zero : angleclass.shiftinrange 0 = 0.
Proof. apply shiftinrange_id; pose proof two_pi_pos; lra. Qed.

End Normalisation.

(** ** One arc: the ladders and membership *)

(** Case analysis on every comparison of two scalars in sight. *)
Ltac decide_comparisons :=
  unfold Double.gtb, Double.geb, Double.leb, Double.ltb, Double.fmin, Double.fmax in *;
  repeat match goal with
         | |- context [Rle_dec ?a ?b] => destruct (Rle_dec a b); simpl
         | |- context [Rlt_dec ?a ?b] => destruct (Rlt_dec a b); simpl
         | H : context [Rle_dec ?a ?b] |- _ => destruct (Rle_dec a b); simpl in H
         | H : context [Rlt_dec ?a ?b] |- _ => destruct (Rlt_dec a b); simpl in H
         end.

(** Evaluation at given angles (multiples of pi): every test and every
    [fmin]/[fmax] is settled by linear arithmetic, one at a time. *)
Ltac unfold_arcs :=
  unfold anglerange.combine, anglerange.overlap, anglerange.isinside,
    anglerange.iscircle, anglerange.op_eq, anglerange.setboth,
    anglerange.setcircle, anglerange.setupper, anglerange.setlower,
    anglerange.setsorttype, anglerange.make, anglerange.default,
    anglerange.isempty, anglerange.getlower, anglerange.getupper,
    angleclass.op_gt, angleclass.op_ge, angleclass.op_le, angleclass.op_lt,
    angleclass.op_eq, angleclass.getval, angleclass.of_double,
    Double.gtb, Double.geb;
  cbn [anglerange.lowerborder anglerange.upperborder anglerange.upperset
       anglerange.lowerset anglerange.fullcircle anglerange.sortby
       angleclass.value negb andb orb].

Ltac linear := unfold Double.degrees, Double.M_PI; lra.

Ltac evaluate_step :=
  match goal with
  | |- context [angleclass.shiftinrange ?x] =>
      rewrite (shiftinrange_id x) by linear
  | |- context [Double.fmin ?a ?b] =>
      first [ rewrite (fmin_left a b) by linear
            | rewrite (fmin_right a b) by linear ]
  | |- context [Double.fmax ?a ?b] =>
      first [ rewrite (fmax_right a b) by linear
            | rewrite (fmax_left a b) by linear ]
  | |- context [Double.leb ?a ?b] =>
      first [ rewrite (proj2 (leb_true a b)) by linear
            | rewrite (proj2 (leb_false a b)) by linear ]
  | |- context [Double.ltb ?a ?b] =>
      first [ rewrite (proj2 (ltb_true a b)) by linear
            | rewrite (proj2 (ltb_false a b)) by linear ]
  | |- context [Double.eqb ?a ?b] =>
      first [ rewrite (proj2 (eqb_true a b)) by linear
            | rewrite (proj2 (eqb_false a b)) by linear ]
  end.

Ltac evaluate_arcs :=
  pose proof PI_RGT_0; unfold Ladder.arc;
  repeat (unfold_arcs; try evaluate_step).

(** Case analysis on the tests of a ladder, kept as booleans. *)
Ltac split_tests :=
  unfold angleclass.op_gt, angleclass.op_le, angleclass.op_ge,
    anglerange.getlower, anglerange.getupper, angleclass.getval;
  repeat match goal with
         | |- context [if ?c then _ else _] =>
             match c with
             | anglerange.fullcircle _ => fail 1
             | _ => destruct c
             end
         end.


Section ArcFacts.
Local Open Scope R_scope.
Import Double Ladder.

Local Abbreviation lo r := (angleclass.value (anglerange.lowerborder r)).
Local Abbreviation up r := (angleclass.value (anglerange.upperborder r)).
Local Abbreviation fresh r := (anglerange.setsorttype anglerange.default (anglerange.sortby r)).

Lemma combine_empty_operand (a b : anglerange.t) :
  anglerange.isempty a = true \/ anglerange.isempty b = true ->
  anglerange.combine a b = fresh a.
Proof.
  intros [H|H]; unfold anglerange.combine; rewrite H; simpl;
    rewrite ?andb_false_r; reflexivity.
Qed.

Lemma overlap_empty_operand (a b : anglerange.t) :
  anglerange.isempty a = true \/ anglerange.isempty b = true ->
  anglerange.overlap a b = fresh a.
Proof.
  intros [H|H]; unfold anglerange.overlap; rewrite H; simpl;
    rewrite ?andb_false_r; reflexivity.
Qed.

Lemma combine_full_other (a b : anglerange.t) :
  anglerange.isempty a = false -> anglerange.isempty b = false ->
  anglerange.fullcircle b = true ->
  anglerange.combine a b = anglerange.setsorttype b (anglerange.sortby a).
Proof.
  intros Ha Hb Hf; unfold anglerange.combine; rewrite Ha, Hb, Hf; reflexivity.
Qed.

Lemma combine_eq (a b : anglerange.t) :
  anglerange.inrange a -> anglerange.inrange b ->
  anglerange.isempty a = false -> anglerange.isempty b = false ->
  anglerange.fullcircle b = false ->
  anglerange.combine a b =
  install (if anglerange.fullcircle a then a else fresh a)
    (combine_ladder (lo a) (up a) (lo b) (up b)).
Proof.
  intros [Hl1 Hu1] [Hl2 Hu2] Ha Hb Hf.
  unfold anglerange.combine, combine_ladder. rewrite Ha, Hb, Hf. simpl.
  split_tests; unfold install; rewrite ?of_double_id by assumption; reflexivity.
Qed.

Lemma overlap_eq (a b : anglerange.t) :
  anglerange.inrange a -> anglerange.inrange b ->
  anglerange.isempty a = false -> anglerange.isempty b = false ->
  anglerange.fullcircle a = false -> anglerange.fullcircle b = false ->
  anglerange.overlap a b =
  install (fresh a) (overlap_ladder (lo a) (up a) (lo b) (up b)).
Proof.
  intros [Hl1 Hu1] [Hl2 Hu2] Ha Hb Hfa Hfb.
  unfold anglerange.overlap, overlap_ladder. rewrite Ha, Hb, Hfa, Hfb. simpl.
  split_tests; unfold install; rewrite ?of_double_id by assumption; reflexivity.
Qed.

Lemma combine_ladder_spec (l1 u1 l2 u2 : R) :
  0 <= l1 < 2 * M_PI -> 0 <= u1 < 2 * M_PI ->
  0 <= l2 < 2 * M_PI -> 0 <= u2 < 2 * M_PI ->
  match combine_ladder l1 u1 l2 u2 with
  | Untouched => forall x, inarc l1 u1 x -> inarc l2 u2 x -> False
  | Circle =>
      touching l1 u1 l2 u2 /\ forall x, inarc l1 u1 x \/ inarc l2 u2 x
  | Borders l u =>
      (0 <= l < 2 * M_PI /\ 0 <= u < 2 * M_PI) /\
      touching l1 u1 l2 u2 /\
      forall x, inarc l u x <-> inarc l1 u1 x \/ inarc l2 u2 x
  end.
Proof.
  intros H1 H2 H3 H4. unfold combine_ladder.
  decide_comparisons; unfold touching, inarc.
  all: try (intros x; lra).
  all: repeat split; try lra; try (intros x; lra).
Qed.

Lemma overlap_ladder_spec (l1 u1 l2 u2 : R) :
  0 <= l1 < 2 * M_PI -> 0 <= u1 < 2 * M_PI ->
  0 <= l2 < 2 * M_PI -> 0 <= u2 < 2 * M_PI ->
  match overlap_ladder l1 u1 l2 u2 with
  | Untouched => True
  | Circle => False
  | Borders l u =>
      (0 <= l < 2 * M_PI /\ 0 <= u < 2 * M_PI) /\
      forall x, inarc l u x -> inarc l1 u1 x /\ inarc l2 u2 x
  end.
Proof.
  intros H1 H2 H3 H4. unfold overlap_ladder.
  decide_comparisons; unfold inarc; try exact I.
  all: repeat split; try lra; try (intros x; lra).
Qed.

(** Membership, as a proposition. *)
Lemma isinside_true (a : anglerange.t) (v : angleclass.t) :
  anglerange.isinside a v = true <->
  anglerange.isempty a = false /\
  (anglerange.fullcircle a = true \/ inarc (lo a) (up a) (angleclass.value v)).
Proof.
  unfold anglerange.isinside, angleclass.op_gt, angleclass.op_ge, angleclass.op_le.
  destruct (anglerange.isempty a); [intuition discriminate|].
  destruct (anglerange.fullcircle a); [intuition|].
  unfold inarc. decide_comparisons; intuition (try discriminate; try lra).
Qed.

Lemma isinside_lower (a : anglerange.t) :
  anglerange.isempty a = false ->
  anglerange.isinside a (anglerange.lowerborder a) = true.
Proof.
  intros H. apply isinside_true. split; [assumption|]. right. unfold inarc. lra.
Qed.

(** What [install] leaves in the fields that membership reads. *)
Lemma install_borders (r : anglerange.t) (l u : R) :
  0 <= l < 2 * M_PI -> 0 <= u < 2 * M_PI ->
  anglerange.isempty (install r (Borders l u)) = false /\
  anglerange.fullcircle (install r (Borders l u)) = anglerange.fullcircle r /\
  lo (install r (Borders l u)) = l /\ up (install r (Borders l u)) = u.
Proof.
  intros Hl Hu. simpl. unfold anglerange.isempty. simpl.
  rewrite !shiftinrange_id by assumption. auto.
Qed.

(** [combine], when it returns an arc, returns the union of its operands. *)
Lemma combine_inside (a b : anglerange.t) (v : angleclass.t) :
  anglerange.inrange a -> anglerange.inrange b ->
  anglerange.isempty (anglerange.combine a b) = false ->
  anglerange.isinside (anglerange.combine a b) v
  = anglerange.isinside a v || anglerange.isinside b v.
Proof.
  intros Ia Ib Hne.
  destruct (anglerange.isempty a) eqn:Ea.
  { rewrite combine_empty_operand in Hne by auto. discriminate. }
  destruct (anglerange.isempty b) eqn:Eb.
  { rewrite combine_empty_operand in Hne by auto. discriminate. }
  apply eq_true_iff_eq. rewrite orb_true_iff, !isinside_true, Ea, Eb.
  destruct (anglerange.fullcircle b) eqn:Fb.
  { rewrite combine_full_other by assumption.
    unfold anglerange.setsorttype, anglerange.isempty in *; simpl.
    rewrite Eb, Fb. intuition. }
  rewrite combine_eq in * by assumption.
  destruct Ia as [Il1 Iu1], Ib as [Il2 Iu2].
  pose proof (combine_ladder_spec _ _ _ _ Il1 Iu1 Il2 Iu2) as S.
  destruct (combine_ladder (lo a) (up a) (lo b) (up b)) as [| |l u].
  - destruct (anglerange.fullcircle a) eqn:Fa.
    + simpl. rewrite Ea, Fa. intuition.
    + simpl in Hne. discriminate.
  - destruct S as [_ S]. simpl. specialize (S (angleclass.value v)).
    intuition.
  - destruct S as [[Rl Ru] [_ S]].
    destruct (install_borders (if anglerange.fullcircle a then a else fresh a) _ _ Rl Ru)
      as (E1 & E2 & E3 & E4).
    rewrite E1, E2, E3, E4, S.
    destruct (anglerange.fullcircle a) eqn:Fa; simpl; intuition discriminate.
Qed.

Lemma isinside_setsorttype (a : anglerange.t) (m : anglerange.sorttype)
      (v : angleclass.t) :
  anglerange.isinside (anglerange.setsorttype a m) v = anglerange.isinside a v.
Proof. reflexivity. Qed.

Lemma isinside_full (a : anglerange.t) (v : angleclass.t) :
  anglerange.isempty a = false -> anglerange.fullcircle a = true ->
  anglerange.isinside a v = true.
Proof. intros E F. apply isinside_true. auto. Qed.

(** The borders of a result obey the invariant of [angleclass] again. *)
Lemma combine_inrange (a b : anglerange.t) :
  anglerange.inrange a -> anglerange.inrange b ->
  anglerange.inrange (anglerange.combine a b).
Proof.
  intros [Il1 Iu1] [Il2 Iu2]. unfold anglerange.combine.
  repeat match goal with
         | |- context [if ?c then _ else _] => destruct c
         end;
    split; simpl; try apply of_double_inrange; assumption.
Qed.

Lemma overlap_inrange (a b : anglerange.t) :
  anglerange.inrange a -> anglerange.inrange b ->
  anglerange.inrange (anglerange.overlap a b).
Proof.
  intros [Il1 Iu1] [Il2 Iu2]. unfold anglerange.overlap.
  repeat match goal with
         | |- context [if ?c then _ else _] => destruct c
         end;
    split; simpl; try apply of_double_inrange; assumption.
Qed.

(** [combine] returns the empty arc exactly for operands without a common
    angle. *)
Lemma combine_empty_separated (a b : anglerange.t) :
  anglerange.inrange a -> anglerange.inrange b ->
  anglerange.isempty (anglerange.combine a b) = true ->
  angleset.separated a b.
Proof.
  intros Ia Ib He v Hav Hbv.
  apply isinside_true in Hav as [Ea Pa]. apply isinside_true in Hbv as [Eb Pb].
  destruct (anglerange.fullcircle b) eqn:Fb.
  { rewrite combine_full_other in He by assumption.
    unfold anglerange.isempty in *; simpl in He. congruence. }
  rewrite combine_eq in He by assumption.
  destruct Ia as [Il1 Iu1], Ib as [Il2 Iu2].
  pose proof (combine_ladder_spec _ _ _ _ Il1 Iu1 Il2 Iu2) as S.
  destruct (combine_ladder (lo a) (up a) (lo b) (up b)) as [| |l u].
  - destruct (anglerange.fullcircle a) eqn:Fa; simpl in He; [congruence|].
    destruct Pa as [Pa|Pa], Pb as [Pb|Pb]; try discriminate. eauto.
  - discriminate.
  - destruct S as [[Rl Ru] _].
    destruct (install_borders (if anglerange.fullcircle a then a else fresh a)
                _ _ Rl Ru) as (E1 & _).
    congruence.
Qed.

Lemma separated_combine_empty (a b : anglerange.t) :
  anglerange.inrange a -> anglerange.inrange b ->
  angleset.separated a b ->
  anglerange.isempty (anglerange.combine a b) = true.
Proof.
  intros Ia Ib Hs.
  destruct (anglerange.isempty a) eqn:Ea.
  { rewrite combine_empty_operand by auto. reflexivity. }
  destruct (anglerange.isempty b) eqn:Eb.
  { rewrite combine_empty_operand by auto. reflexivity. }
  destruct (anglerange.fullcircle b) eqn:Fb.
  { exfalso. apply (Hs (anglerange.lowerborder a)).
    - now apply isinside_lower.
    - now apply isinside_full. }
  destruct (anglerange.fullcircle a) eqn:Fa.
  { exfalso. apply (Hs (anglerange.lowerborder b)).
    - now apply isinside_full.
    - now apply isinside_lower. }
  rewrite combine_eq, Fa by assumption.
  destruct Ia as [Il1 Iu1], Ib as [Il2 Iu2].
  pose proof (combine_ladder_spec _ _ _ _ Il1 Iu1 Il2 Iu2) as S.
  assert (T : touching (lo a) (up a) (lo b) (up b) -> False).
  { intros [T|T].
    - apply (Hs (anglerange.lowerborder a)).
      + now apply isinside_lower.
      + apply isinside_true. auto.
    - apply (Hs (anglerange.lowerborder b)).
      + apply isinside_true. auto.
      + now apply isinside_lower. }
  destruct (combine_ladder (lo a) (up a) (lo b) (up b)) as [| |l u].
  - reflexivity.
  - exfalso. apply T, S.
  - exfalso. apply T, S.
Qed.

Lemma separated_sym (a b : anglerange.t) :
  angleset.separated a b -> angleset.separated b a.
Proof. intros H v Hb Ha. exact (H v Ha Hb). Qed.

End ArcFacts.

(* ===================================================================== *)
(** * The merge pass *)
(* ===================================================================== *)

(** ** The loops over iterators compute the fold *)

Section MergePass.
Import angleset.

Lemma deref_here (l1 l2 : list anglerange.t) (x : anglerange.t) :
  deref (l1 ++ x :: l2) (length l1) = x.
Proof. unfold deref. apply nth_middle. Qed.

Lemma assign_here (l1 l2 : list anglerange.t) (x y : anglerange.t) :
  assign (l1 ++ x :: l2) (length l1) y = l1 ++ y :: l2.
Proof. induction l1 as [|z l1 IH]; simpl; [reflexivity|now rewrite IH]. Qed.

Lemma erase_here (l1 l2 : list anglerange.t) (x : anglerange.t) :
  erase (l1 ++ x :: l2) (length l1) = l1 ++ l2.
Proof. induction l1 as [|z l1 IH]; simpl; [reflexivity|now rewrite IH]. Qed.

(** The inner loop meets the last element first. *)
Lemma scan_snoc (tl : list anglerange.t) (x c : anglerange.t) :
  scan x (tl ++ [c]) =
  if negb (anglerange.isempty (anglerange.combine x c))
  then scan (anglerange.combine x c) tl
  else (fst (scan x tl), snd (scan x tl) ++ [c]).
Proof.
  induction tl as [|y tl IH]; simpl.
  - destruct (negb _); reflexivity.
  - rewrite IH. destruct (negb (anglerange.isempty (anglerange.combine x c))).
    + reflexivity.
    + destruct (scan x tl) as [x1 tl1]. simpl.
      destruct (negb _); reflexivity.
Qed.

Lemma combine_while_scan (tl pre suf : list anglerange.t) (x : anglerange.t) :
  combine_while (length tl) (length pre) (pre ++ x :: tl ++ suf)
  = pre ++ fst (scan x tl) :: snd (scan x tl) ++ suf.
Proof.
  revert x suf. induction tl as [|c tl IH] using rev_ind; intros x suf.
  - reflexivity.
  - rewrite length_app, Nat.add_comm. simpl length. cbn [Nat.add combine_while].
    rewrite deref_here.
    replace (pre ++ x :: (tl ++ [c]) ++ suf)
      with ((pre ++ x :: tl) ++ c :: suf)
      by (rewrite <- !app_assoc; reflexivity).
    replace (length pre + S (length tl)) with (length (pre ++ x :: tl))
      by (rewrite length_app; reflexivity).
    rewrite deref_here, scan_snoc.
    destruct (negb (anglerange.isempty (anglerange.combine x c))).
    + rewrite <- app_assoc. cbn [app].
      rewrite assign_here.
      replace (pre ++ anglerange.combine x c :: tl ++ c :: suf)
        with ((pre ++ anglerange.combine x c :: tl) ++ c :: suf)
        by (rewrite <- app_assoc; reflexivity).
      replace (length (pre ++ x :: tl))
        with (length (pre ++ anglerange.combine x c :: tl))
        by (rewrite !length_app; reflexivity).
      rewrite erase_here, <- app_assoc. cbn [app]. apply IH.
    + rewrite <- app_assoc. cbn [app fst snd].
      rewrite IH, <- app_assoc. reflexivity.
Qed.

Lemma combine_for_merge (pre rest : list anglerange.t) :
  combine_for (length pre) (pre ++ merge rest) = merge (pre ++ rest).
Proof.
  revert rest. induction pre as [|x pre IH] using rev_ind; intros rest.
  - reflexivity.
  - rewrite length_app, Nat.add_comm. cbn [length Nat.add combine_for].
    rewrite <- !app_assoc. cbn [app].
    replace (length (pre ++ x :: merge rest) - 1 - length pre)
      with (length (merge rest))
      by (rewrite length_app; simpl; lia).
    rewrite <- (app_nil_r (merge rest)) at 2.
    rewrite combine_while_scan, app_nil_r.
    specialize (IH (x :: rest)). simpl in IH.
    destruct (scan x (merge rest)) as [x' rest']. exact IH.
Qed.

(** [angleset::combine] leaves [merge] of the storage. *)
Lemma combine_storage (this : t) :
  storage (combine this) = merge (storage this).
Proof.
  unfold combine. cbn [storage].
  destruct (storage this) as [|last pre _] using rev_ind; [reflexivity|].
  destruct (2 <=? length (pre ++ [last])) eqn:E.
  - rewrite length_app, Nat.add_comm. cbn [length Nat.add Nat.sub].
    rewrite Nat.sub_0_r.
    change [last] with (merge [last]) at 1. apply combine_for_merge.
  - apply Nat.leb_gt in E. rewrite length_app in E. simpl in E.
    destruct pre; [reflexivity|simpl in E; lia].
Qed.

End MergePass.

(** ** What the pass establishes *)

Section Apart.
Import angleset.

(** Running the inner loop for [x] against arcs that are apart from each
    other: the arcs left over are apart from each other and from the grown
    [x'], and [x'] holds no angle from outside [x] and the arcs it met. *)
Lemma scan_apart (tl : list anglerange.t) (x : anglerange.t) :
  anglerange.inrange x -> apart tl ->
  anglerange.inrange (fst (scan x tl))
  /\ apart (snd (scan x tl))
  /\ incl (snd (scan x tl)) tl
  /\ Forall (separated (fst (scan x tl))) (snd (scan x tl))
  /\ (forall v, anglerange.isinside (fst (scan x tl)) v = true ->
                anglerange.isinside x v = true
                \/ exists c, In c tl /\ anglerange.isinside c v = true).
Proof.
  intros Ix. induction tl as [|c tl IH]; intros [Ir Hs].
  - simpl. split; [assumption|]. split; [split; constructor|].
    split; [apply incl_refl|]. split; [constructor|auto].
  - inversion Ir as [|? ? Ic Itl]; subst. inversion Hs as [|? ? Hc Htl]; subst.
    destruct (IH (conj Itl Htl)) as (Ix1 & [Ir1 Hs1] & Hin & Hsep & Hden).
    clear IH. simpl.
    destruct (scan x tl) as [x1 tl1]. simpl in *.
    assert (Hc1 : Forall (separated c) tl1).
    { rewrite Forall_forall in *. intros r Hr. apply Hc, Hin, Hr. }
    destruct (anglerange.isempty (anglerange.combine x1 c)) eqn:E; simpl.
    + (* [c] stays *)
      split; [assumption|]. split.
      { split; constructor; assumption. }
      split.
      { intros r [Hr|Hr]; [left; assumption|right; apply Hin, Hr]. }
      split.
      { constructor; [|assumption]. now apply combine_empty_separated. }
      intros v Hv. destruct (Hden v Hv) as [H|[r [Hr H]]]; eauto.
    + (* [c] is taken into [x1] *)
      split; [now apply combine_inrange|]. split; [split; assumption|].
      split.
      { intros r Hr. right. now apply Hin. }
      split.
      { rewrite Forall_forall in *. intros r Hr v Hv Hrv.
        rewrite combine_inside in Hv by assumption.
        apply orb_true_iff in Hv as [Hv|Hv].
        - exact (Hsep r Hr v Hv Hrv).
        - exact (Hc1 r Hr v Hv Hrv). }
      intros v Hv. rewrite combine_inside in Hv by assumption.
      apply orb_true_iff in Hv as [Hv|Hv].
      * destruct (Hden v Hv) as [H|[r [Hr H]]]; eauto.
      * eauto.
Qed.

Lemma merge_apart (v : list anglerange.t) :
  Forall anglerange.inrange v -> apart (merge v).
Proof.
  induction v as [|x v IH]; intros Iv.
  - split; constructor.
  - inversion Iv as [|? ? Ix Ir]; subst. specialize (IH Ir). simpl.
    destruct (scan_apart (merge v) x Ix IH) as (Ix' & [Ir' Hs'] & _ & Hsep & _).
    destruct (scan x (merge v)) as [x' rest']. simpl in *.
    split; constructor; assumption.
Qed.

(** On arcs that are apart the pass finds nothing to do. *)
Lemma scan_fixed (tl : list anglerange.t) (x : anglerange.t) :
  anglerange.inrange x -> Forall anglerange.inrange tl ->
  Forall (separated x) tl -> scan x tl = (x, tl).
Proof.
  intros Ix. induction tl as [|c tl IH]; intros Ir Hs; [reflexivity|].
  inversion Ir; subst. inversion Hs; subst. simpl. rewrite IH by assumption.
  rewrite separated_combine_empty by assumption. reflexivity.
Qed.

Lemma merge_fixed (v : list anglerange.t) : apart v -> merge v = v.
Proof.
  induction v as [|x v IH]; intros [Iv Hs]; [reflexivity|].
  inversion Iv; subst. inversion Hs; subst. simpl.
  rewrite IH by (split; assumption). rewrite scan_fixed by assumption.
  reflexivity.
Qed.

(** Arcs that are apart cannot be combined, in either order. *)
Lemma apart_uncombinable (v : list anglerange.t) :
  apart v -> pairwise_uncombinable v.
Proof.
  intros [Iv Hs] i j Hi Hj Hij. unfold deref.
  assert (Ii : anglerange.inrange (nth i v anglerange.default)).
  { rewrite Forall_forall in Iv. apply Iv, nth_In, Hi. }
  assert (Ij : anglerange.inrange (nth j v anglerange.default)).
  { rewrite Forall_forall in Iv. apply Iv, nth_In, Hj. }
  apply separated_combine_empty; try assumption. clear Ii Ij Iv.
  revert i j Hi Hj Hij. induction Hs as [|x v Hx Hs IH]; intros i j Hi Hj Hij.
  - simpl in Hi. lia.
  - rewrite Forall_forall in Hx.
    destruct i as [|i], j as [|j]; simpl in *.
    + congruence.
    + apply Hx, nth_In. lia.
    + apply separated_sym, Hx, nth_In. lia.
    + apply IH; lia.
Qed.

Lemma apart_permutation (v w : list anglerange.t) :
  Permutation v w -> apart v -> apart w.
Proof.
  intros P [Iv Hs]. split; [now apply (Permutation_Forall P)|]. clear Iv.
  induction P as [|x v w P IH|x y v|v w u P1 IH1 P2 IH2].
  - constructor.
  - inversion Hs; subst. constructor; [now apply (Permutation_Forall P)|auto].
  - inversion Hs as [|? ? Hy Hs1]; subst. inversion Hs1 as [|? ? Hx Hs2]; subst.
    inversion Hy as [|? ? Hyx Hyv]; subst.
    constructor; [constructor; [now apply separated_sym|assumption]|].
    constructor; assumption.
  - auto.
Qed.

Lemma setsorttype_inrange (r : anglerange.t) (m : anglerange.sorttype) :
  anglerange.inrange r -> anglerange.inrange (anglerange.setsorttype r m).
Proof. intros H; exact H. Qed.

(** Each way of adding leaves the storage apart. *)
Lemma add_apart (this : t) (value : anglerange.t) :
  apart (storage this) -> anglerange.inrange value ->
  apart (storage (add this value)).
Proof.
  intros Ha Iv. unfold add.
  destruct (negb (anglerange.isempty value)); [|exact Ha].
  rewrite combine_storage. apply merge_apart. cbn [storage].
  unfold push_back_lower. apply Forall_app. split; [apply Ha|].
  constructor; [now apply setsorttype_inrange|constructor].
Qed.

Lemma add_bounds_apart (this : t) (lower upper : R) :
  Forall anglerange.inrange (storage this) ->
  apart (storage (add_bounds this lower upper)).
Proof.
  intros Ia. unfold add_bounds. rewrite combine_storage. apply merge_apart.
  cbn [storage]. unfold push_back_lower. apply Forall_app. split; [exact Ia|].
  constructor; [|constructor]. split; apply of_double_inrange.
Qed.

Lemma add_set_apart (this value : t) :
  Forall anglerange.inrange (storage this) ->
  Forall anglerange.inrange (storage value) ->
  apart (storage (add_set this value)).
Proof.
  intros Ia Iv. unfold add_set. rewrite combine_storage. apply merge_apart.
  cbn [storage]. now apply Forall_app.
Qed.

Lemma combine_apart (this : t) :
  Forall anglerange.inrange (storage this) -> apart (storage (combine this)).
Proof. intros Ia. rewrite combine_storage. now apply merge_apart. Qed.

Lemma overlap_apart (this : t) (other : anglerange.t) :
  Forall anglerange.inrange (storage this) -> anglerange.inrange other ->
  apart (storage (overlap this other)).
Proof.
  intros Ia Io. unfold overlap.
  assert (Ib : Forall anglerange.inrange
                 (storage (if negb (consistent this) then combine this else this))).
  { destruct (negb (consistent this)); [apply combine_apart|]; assumption. }
  revert Ib. generalize (storage (if negb (consistent this) then combine this else this)).
  intros l Il.
  assert (H0 : apart (storage default)) by (split; constructor).
  revert H0. generalize default. induction Il as [|i l Ii Il IH]; intros acc Hacc.
  - exact Hacc.
  - simpl. apply IH. apply add_apart; [assumption|].
    now apply overlap_inrange.
Qed.

Lemma overlap_set_apart (this other : t) :
  Forall anglerange.inrange (storage this) ->
  Forall anglerange.inrange (storage other) ->
  apart (storage (overlap_set this other)).
Proof.
  intros Ia Io. unfold overlap_set.
  assert (H0 : apart (storage default)) by (split; constructor).
  revert H0. generalize default. induction Io as [|i l Ii Il IH]; intros acc Hacc.
  - exact Hacc.
  - simpl. apply IH. apply add_set_apart; [apply Hacc|].
    apply overlap_apart; assumption.
Qed.

(** Every set a program can build is apart. *)
Lemma reachable_apart (this : t) : reachable this -> apart (storage this).
Proof.
  induction 1 as [ | r Ir | l u Il Iu | this value Hr IH Iv | this l u Hr IH
                 | this value Hr IH Hv IHv | this Hr IH | this Hr IH
                 | this other Hr IH Io | this other Hr IH Ho IHo
                 | this sorted Hr IH P ].
  - split; constructor.
  - unfold of_range. destruct (negb (anglerange.isempty r)); simpl.
    + split; [constructor; [exact Ir|constructor]|constructor; constructor].
    + split; constructor.
  - simpl. split; [constructor; [split; assumption|constructor]
                  |constructor; constructor].
  - now apply add_apart.
  - apply add_bounds_apart, IH.
  - apply add_set_apart; [apply IH|apply IHv].
  - split; constructor.
  - unfold iscircle. simpl.
    destruct (negb (consistent this)); [apply combine_apart, IH|exact IH].
  - apply overlap_apart; [apply IH|assumption].
  - apply overlap_set_apart; [apply IH|apply IHo].
  - simpl. exact (apart_permutation _ _ P IH).
Qed.

End Apart.

(* ===================================================================== *)
(** * The claims on one arc *)
(* ===================================================================== *)

Section ArcClaims.
Local Open Scope R_scope.
Import Double Ladder.





(** C7.  When either operand is empty each of [<], [>], [<=], [>=] returns
    false; for two operands that are not empty, under a sort mode the
    [switch] knows, [a <= b] returns the negation of what [a > b] returns and
    [a >= b] the negation of what [a < b] returns. *)
Theorem C7_relational_operators (a b : anglerange.t) :
  (anglerange.isempty a = true \/ anglerange.isempty b = true ->
   anglerange.op_lt a b = Returns false /\ anglerange.op_gt a b = Returns false /\
   anglerange.op_le a b = Returns false /\ anglerange.op_ge a b = Returns false)
  /\
  (anglerange.isempty a = false -> anglerange.isempty b = false ->
   anglerange.recognised (anglerange.sortby a) ->
   exists lt gt : bool,
     anglerange.op_lt a b = Returns lt /\ anglerange.op_gt a b = Returns gt /\
     anglerange.op_le a b = Returns (negb gt) /\
     anglerange.op_ge a b = Returns (negb lt)).
Proof.
  split.
  - intros H.
    assert (E : anglerange.isempty a || anglerange.isempty b = true)
      by (apply orb_true_iff; exact H).
    unfold anglerange.op_lt, anglerange.op_gt, anglerange.op_le, anglerange.op_ge.
    rewrite E. auto.
  - intros Ea Eb Hm.
    unfold anglerange.op_le, anglerange.op_ge, anglerange.op_lt, anglerange.op_gt.
    rewrite Ea, Eb. simpl.
    destruct Hm as [Hm|[Hm|Hm]]; rewrite Hm; simpl.
    + do 2 eexists; repeat split; reflexivity.
    + do 2 eexists; repeat split; reflexivity.
    + destruct (anglerange.fullcircle a), (anglerange.fullcircle b); simpl;
        do 2 eexists; repeat split; reflexivity.
Qed.

(** C8.  Comparing two arcs that are not empty while the sort mode of the
    receiver holds a value the [switch] does not know throws
    [std::out_of_range], from [<] and [>] and so from [<=] and [>=]. *)
Theorem C8_unrecognised_sort_mode_throws (a b : anglerange.t) :
  anglerange.isempty a = false -> anglerange.isempty b = false ->
  ~ anglerange.recognised (anglerange.sortby a) ->
  anglerange.op_lt a b = Throws_out_of_range anglerange.invalid_sort_field /\
  anglerange.op_gt a b = Throws_out_of_range anglerange.invalid_sort_field /\
  anglerange.op_le a b = Throws_out_of_range anglerange.invalid_sort_field /\
  anglerange.op_ge a b = Throws_out_of_range anglerange.invalid_sort_field.
Proof.
  intros Ea Eb Hm.
  unfold anglerange.op_le, anglerange.op_ge, anglerange.op_lt, anglerange.op_gt.
  rewrite Ea, Eb. simpl.
  unfold anglerange.recognised, anglerange.SRT_LOWER, anglerange.SRT_UPPER,
    anglerange.SRT_SIZE in Hm.
  destruct (anglerange.sortby a) as [|[[p|p|]|[p|p|]|]|p]; simpl; auto;
    exfalso; apply Hm; auto.
Qed.

(** C10.  With an empty operand the four operators return false whatever
    the two sort-mode fields hold: the [switch], and with it the throw, is
    never reached. *)
Theorem C10_empty_operand_never_throws (a b : anglerange.t)
        (m1 m2 : anglerange.sorttype) :
  anglerange.isempty a = true \/ anglerange.isempty b = true ->
  anglerange.op_lt (anglerange.setsorttype a m1) (anglerange.setsorttype b m2)
    = Returns false /\
  anglerange.op_gt (anglerange.setsorttype a m1) (anglerange.setsorttype b m2)
    = Returns false /\
  anglerange.op_le (anglerange.setsorttype a m1) (anglerange.setsorttype b m2)
    = Returns false /\
  anglerange.op_ge (anglerange.setsorttype a m1) (anglerange.setsorttype b m2)
    = Returns false.
Proof.
  intros H.
  assert (E : anglerange.isempty (anglerange.setsorttype a m1)
              || anglerange.isempty (anglerange.setsorttype b m2) = true).
  { apply orb_true_iff. exact H. }
  unfold anglerange.op_lt, anglerange.op_gt, anglerange.op_le, anglerange.op_ge.
  rewrite E. auto.
Qed.

End ArcClaims.

(* ===================================================================== *)
(** * The claims on the set of arcs *)
(* ===================================================================== *)

Section SetClaims.
Local Open Scope R_scope.
Import Double Ladder.


Lemma add_storage (this : angleset.t) (value : anglerange.t) :
  anglerange.isempty value = false ->
  angleset.storage (angleset.add this value)
  = angleset.merge
      (angleset.storage this
       ++ [anglerange.setsorttype value anglerange.SRT_LOWER]).
Proof.
  intros E. unfold angleset.add. rewrite E. simpl negb. cbv iota.
  now rewrite combine_storage.
Qed.

(** C5.  [0,10] and [20,30] degrees, added to the empty set, are stored as
    two arcs; adding [10,20] then leaves the single arc [0,30]. *)
Theorem C5_cascade_merge :
  let range (l u : R) :=
    anglerange.make (angleclass.of_double (degrees l))
                    (angleclass.of_double (degrees u)) in
  let s1 := angleset.add angleset.default (range 0 10) in
  let s2 := angleset.add s1 (range 20 30) in
  let s3 := angleset.add s2 (range 10 20) in
  angleset.storage s2
  = [arc (degrees 0) (degrees 10) false anglerange.SRT_LOWER;
     arc (degrees 20) (degrees 30) false anglerange.SRT_LOWER]
  /\ length (angleset.storage s2) = 2%nat
  /\ angleset.storage s3
     = [arc (degrees 0) (degrees 30) false anglerange.SRT_LOWER]
  /\ length (angleset.storage s3) = 1%nat.
Proof.
  cbv zeta. pose proof PI_RGT_0 as Hpi.
  assert (Er : forall l u, 0 <= l < 360 -> 0 <= u < 360 ->
             anglerange.setsorttype
               (anglerange.make (angleclass.of_double (degrees l))
                                (angleclass.of_double (degrees u)))
               anglerange.SRT_LOWER
             = arc (degrees l) (degrees u) false anglerange.SRT_LOWER).
  { intros l u Hl Hu. unfold arc, anglerange.make, anglerange.setsorttype,
      angleclass.of_double. simpl.
    rewrite !shiftinrange_id by (unfold degrees, M_PI; split; nra).
    reflexivity. }
  assert (Hne : forall l u fc m, anglerange.isempty (arc l u fc m) = false)
    by reflexivity.
  assert (E01_23 : anglerange.isempty
            (anglerange.combine
               (arc (degrees 0) (degrees 10) false anglerange.SRT_LOWER)
               (arc (degrees 20) (degrees 30) false anglerange.SRT_LOWER)) = true).
  { evaluate_arcs. reflexivity. }
  assert (E23_12 : anglerange.combine
               (arc (degrees 20) (degrees 30) false anglerange.SRT_LOWER)
               (arc (degrees 10) (degrees 20) false anglerange.SRT_LOWER)
             = arc (degrees 10) (degrees 30) false anglerange.SRT_LOWER).
  { evaluate_arcs. reflexivity. }
  assert (E01_13 : anglerange.combine
               (arc (degrees 0) (degrees 10) false anglerange.SRT_LOWER)
               (arc (degrees 10) (degrees 30) false anglerange.SRT_LOWER)
             = arc (degrees 0) (degrees 30) false anglerange.SRT_LOWER).
  { evaluate_arcs. reflexivity. }
  assert (S2 : angleset.storage
                 (angleset.add
                    (angleset.add angleset.default
                       (anglerange.make (angleclass.of_double (degrees 0))
                                        (angleclass.of_double (degrees 10))))
                    (anglerange.make (angleclass.of_double (degrees 20))
                                     (angleclass.of_double (degrees 30))))
               = [arc (degrees 0) (degrees 10) false anglerange.SRT_LOWER;
                  arc (degrees 20) (degrees 30) false anglerange.SRT_LOWER]).
  { rewrite !add_storage by reflexivity. rewrite !Er by lra.
    cbn [angleset.storage angleset.default app angleset.merge angleset.scan].
    rewrite E01_23. reflexivity. }
  split; [exact S2|]. split; [rewrite S2; reflexivity|].
  assert (S3 : angleset.storage
                 (angleset.add
                    (angleset.add
                       (angleset.add angleset.default
                          (anglerange.make (angleclass.of_double (degrees 0))
                                           (angleclass.of_double (degrees 10))))
                       (anglerange.make (angleclass.of_double (degrees 20))
                                        (angleclass.of_double (degrees 30))))
                    (anglerange.make (angleclass.of_double (degrees 10))
                                     (angleclass.of_double (degrees 20))))
               = [arc (degrees 0) (degrees 30) false anglerange.SRT_LOWER]).
  { rewrite (add_storage _ _ (eq_refl : anglerange.isempty (anglerange.make _ _) = false)).
    rewrite S2, Er by lra.
    cbn [app angleset.merge angleset.scan].
    rewrite E23_12, Hne. cbn [negb angleset.scan]. rewrite E01_13, Hne. reflexivity. }
  split; [exact S3|rewrite S3; reflexivity].
Qed.

End SetClaims.

(* ===================================================================== *)
(** * The claim on the angle value *)
(* ===================================================================== *)

Section AngleClaims.
Local Open Scope R_scope.
Import Double.


End AngleClaims.


(* ===================================================================== *)
(** * The claims at given arcs *)
(* ===================================================================== *)

Section Instances.
Local Open Scope R_scope.
Import Double Ladder.

Ltac known := pose proof PI_RGT_0; simpl; linear.

Lemma arc_inrange (l u : R) (fc : bool) (m : anglerange.sorttype) :
  0 <= l < 2 * M_PI -> 0 <= u < 2 * M_PI -> anglerange.inrange (arc l u fc m).
Proof. intros Hl Hu. split; assumption. Qed.







Lemma C7_witness :
  let a := arc 0 (PI / 2) false anglerange.SRT_LOWER in
  let b := arc (PI / 4) PI false anglerange.SRT_UPPER in
  (anglerange.op_lt a anglerange.default = Returns false /\
   anglerange.op_gt a anglerange.default = Returns false /\
   anglerange.op_le a anglerange.default = Returns false /\
   anglerange.op_ge a anglerange.default = Returns false)
  /\ exists lt gt : bool,
       anglerange.op_lt a b = Returns lt /\ anglerange.op_gt a b = Returns gt /\
       anglerange.op_le a b = Returns (negb gt) /\
       anglerange.op_ge a b = Returns (negb lt).
Proof.
  cbv zeta. split.
  - apply (proj1 (C7_relational_operators _ anglerange.default)).
    right. reflexivity.
  - apply (proj2 (C7_relational_operators _ _)).
    + reflexivity.
    + reflexivity.
    + left. reflexivity.
Defined.

Lemma C8_witness :
  let a := arc 0 (PI / 2) false 7%Z in
  let b := arc (PI / 4) PI false anglerange.SRT_LOWER in
  anglerange.op_lt a b = Throws_out_of_range anglerange.invalid_sort_field /\
  anglerange.op_gt a b = Throws_out_of_range anglerange.invalid_sort_field /\
  anglerange.op_le a b = Throws_out_of_range anglerange.invalid_sort_field /\
  anglerange.op_ge a b = Throws_out_of_range anglerange.invalid_sort_field.
Proof.
  cbv zeta. apply C8_unrecognised_sort_mode_throws.
  - reflexivity.
  - reflexivity.
  - unfold anglerange.recognised, anglerange.SRT_LOWER, anglerange.SRT_UPPER,
      anglerange.SRT_SIZE. simpl. intros [H|[H|H]]; discriminate H.
Defined.


Lemma C10_witness :
  let a := anglerange.default in
  let b := arc (PI / 4) PI false anglerange.SRT_LOWER in
  anglerange.op_lt (anglerange.setsorttype a 7%Z) (anglerange.setsorttype b 9%Z)
    = Returns false /\
  anglerange.op_gt (anglerange.setsorttype a 7%Z) (anglerange.setsorttype b 9%Z)
    = Returns false /\
  anglerange.op_le (anglerange.setsorttype a 7%Z) (anglerange.setsorttype b 9%Z)
    = Returns false /\
  anglerange.op_ge (anglerange.setsorttype a 7%Z) (anglerange.setsorttype b 9%Z)
    = Returns false.
Proof.
  cbv zeta. apply C10_empty_operand_never_throws. left. reflexivity.
Defined.

End Instances.

(* ===================================================================== *)
(** * More on one arc *)
(* ===================================================================== *)

Section MoreArcFacts.
Local Open Scope R_scope.
Import Double Ladder.

Local Abbreviation lo r := (angleclass.value (anglerange.lowerborder r)).
Local Abbreviation up r := (angleclass.value (anglerange.upperborder r)).
Local Abbreviation fresh r :=
  (anglerange.setsorttype anglerange.default (anglerange.sortby r)).

(** The ladder of [overlap], read as sets of angles: nothing is returned
    only for arcs that do not meet, what is returned lies in both arcs, and
    it is all of the intersection unless the ladder of [combine] finds the
    two arcs to close the circle. *)
Lemma overlap_ladder_exact (l1 u1 l2 u2 : R) :
  0 <= l1 < 2 * M_PI -> 0 <= u1 < 2 * M_PI ->
  0 <= l2 < 2 * M_PI -> 0 <= u2 < 2 * M_PI ->
  match overlap_ladder l1 u1 l2 u2 with
  | Untouched => forall x, inarc l1 u1 x -> inarc l2 u2 x -> False
  | Circle => False
  | Borders l u =>
      (0 <= l < 2 * M_PI /\ 0 <= u < 2 * M_PI) /\
      touching l1 u1 l2 u2 /\
      (forall x, inarc l u x -> inarc l1 u1 x /\ inarc l2 u2 x) /\
      (combine_ladder l1 u1 l2 u2 <> Circle ->
       forall x, inarc l1 u1 x -> inarc l2 u2 x -> inarc l u x) /\
      (combine_ladder l1 u1 l2 u2 = Circle ->
       (inarc l1 u1 l2 /\ ~ inarc l u l2) \/ (inarc l2 u2 l1 /\ ~ inarc l u l1))
  end.
Proof.
  intros H1 H2 H3 H4. unfold overlap_ladder, combine_ladder.
  decide_comparisons; unfold touching, inarc.
  all: try (intros x; lra).
  all: repeat split; try lra; try (intros x; lra); try discriminate;
    try (intros N; exfalso; apply N; reflexivity);
    try (intros _ x; lra); try (intros _; lra).
Qed.


Lemma iscircle_install (r : anglerange.t) (s : shape) :
  anglerange.fullcircle r = false -> anglerange.isempty r = true ->
  anglerange.iscircle (install r s) = true <-> s = Circle.
Proof.
  intros F E. destruct s as [| |l u]; simpl.
  - unfold anglerange.iscircle. rewrite F. simpl. split; discriminate.
  - split; reflexivity.
  - unfold anglerange.iscircle, anglerange.setboth. simpl. rewrite F. simpl.
    split; discriminate.
Qed.

(** [overlap] returns the empty arc exactly for operands without a common
    angle. *)
Lemma overlap_empty_iff_separated (a b : anglerange.t) :
  anglerange.inrange a -> anglerange.inrange b ->
  anglerange.isempty (anglerange.overlap a b) = true <-> angleset.separated a b.
Proof.
  intros Ia Ib.
  - destruct (anglerange.isempty a) eqn:Ea.
    { rewrite overlap_empty_operand by auto. split; [|reflexivity].
      intros _ v Hv. apply isinside_true in Hv. destruct Hv; congruence. }
    destruct (anglerange.isempty b) eqn:Eb.
    { rewrite overlap_empty_operand by auto. split; [|reflexivity].
      intros _ v _ Hv. apply isinside_true in Hv. destruct Hv; congruence. }
    destruct (anglerange.fullcircle a) eqn:Fa.
    { unfold anglerange.overlap. rewrite Ea, Eb, Fa. simpl.
      unfold anglerange.isempty in *. simpl. rewrite Eb.
      split; [discriminate|]. intros Hs. exfalso.
      apply (Hs (anglerange.lowerborder b)).
      - now apply isinside_full.
      - now apply isinside_lower. }
    destruct (anglerange.fullcircle b) eqn:Fb.
    { unfold anglerange.overlap. rewrite Ea, Eb, Fa, Fb. simpl. rewrite Ea.
      split; [discriminate|]. intros Hs. exfalso.
      apply (Hs (anglerange.lowerborder a)).
      - now apply isinside_lower.
      - now apply isinside_full. }
    rewrite overlap_eq by assumption.
    destruct Ia as [Il1 Iu1], Ib as [Il2 Iu2].
    pose proof (overlap_ladder_exact _ _ _ _ Il1 Iu1 Il2 Iu2) as S.
    destruct (overlap_ladder _ _ _ _) as [| |l u].
    + split; [|reflexivity]. intros _ v Ha Hb.
      apply isinside_true in Ha as [_ [Ha|Ha]]; [congruence|].
      apply isinside_true in Hb as [_ [Hb|Hb]]; [congruence|]. eauto.
    + contradiction.
    + destruct S as [[Rl Ru] [T _]].
      destruct (install_borders (fresh a) _ _ Rl Ru) as (E1 & _).
      rewrite E1. split; [discriminate|]. intros Hs. exfalso.
      destruct T as [T|T].
      * apply (Hs (anglerange.lowerborder a)).
        -- now apply isinside_lower.
        -- apply isinside_true. auto.
      * apply (Hs (anglerange.lowerborder b)).
        -- apply isinside_true. auto.
        -- now apply isinside_lower.
Qed.

(** X1.  [combine] and [overlap] return the empty arc for the same pairs of
    operands: those without a common angle. *)
Theorem empty_result_iff_no_common_angle (a b : anglerange.t) :
  anglerange.inrange a -> anglerange.inrange b ->
  (anglerange.isempty (anglerange.combine a b) = true <-> angleset.separated a b)
  /\ (anglerange.isempty (anglerange.overlap a b) = true <-> angleset.separated a b).
Proof.
  intros Ia Ib. split.
  - split; [now apply combine_empty_separated|now apply separated_combine_empty].
  - now apply overlap_empty_iff_separated.
Qed.

(** When a non-empty, non-circle pair is combined, the result is marked
    full-circle exactly when the ladder says so. *)
Lemma iscircle_combine_ladder (a b : anglerange.t) :
  anglerange.inrange a -> anglerange.inrange b ->
  anglerange.isempty a = false -> anglerange.isempty b = false ->
  anglerange.fullcircle a = false -> anglerange.fullcircle b = false ->
  anglerange.iscircle (anglerange.combine a b) = true <->
  combine_ladder (lo a) (up a) (lo b) (up b) = Circle.
Proof.
  intros Ia Ib Ea Eb Fa Fb. rewrite combine_eq, Fa by assumption.
  apply iscircle_install; reflexivity.
Qed.

(** Soundness of [overlap], for use below. *)
Lemma overlap_inside_both (A B : anglerange.t) (v : angleclass.t) :
  anglerange.inrange A -> anglerange.inrange B ->
  anglerange.isinside (anglerange.overlap A B) v = true ->
  anglerange.isinside A v = true /\ anglerange.isinside B v = true.
Proof.
  intros Ia Ib H.
  destruct (anglerange.isempty A) eqn:Ea.
  { rewrite overlap_empty_operand in H by auto. discriminate. }
  destruct (anglerange.isempty B) eqn:Eb.
  { rewrite overlap_empty_operand in H by auto. discriminate. }
  destruct (anglerange.fullcircle A) eqn:Fa.
  { unfold anglerange.overlap in H. rewrite Ea, Eb, Fa in H. simpl in H.
    rewrite isinside_setsorttype in H. split; [now apply isinside_full|exact H]. }
  destruct (anglerange.fullcircle B) eqn:Fb.
  { unfold anglerange.overlap in H. rewrite Ea, Eb, Fa, Fb in H. simpl in H.
    split; [exact H|now apply isinside_full]. }
  rewrite overlap_eq in H by assumption.
  destruct Ia as [Il1 Iu1], Ib as [Il2 Iu2].
  pose proof (overlap_ladder_exact _ _ _ _ Il1 Iu1 Il2 Iu2) as S.
  destruct (overlap_ladder _ _ _ _) as [| |l u].
  - discriminate.
  - contradiction.
  - destruct S as [[Rl Ru] (_ & S & _)].
    apply isinside_true in H as [_ H].
    destruct (install_borders (fresh A) _ _ Rl Ru) as (_ & E2 & E3 & E4).
    rewrite E2, E3, E4 in H. simpl in H. destruct H as [H|H]; [discriminate|].
    apply S in H. rewrite !isinside_true. intuition.
Qed.

(** [overlap] returns the whole intersection when one operand is a full
    circle or when the two arcs do not close the circle between them. *)
Lemma overlap_inside_exact (A B : anglerange.t) (v : angleclass.t) :
  anglerange.inrange A -> anglerange.inrange B ->
  anglerange.fullcircle A = true \/ anglerange.fullcircle B = true \/
  anglerange.iscircle (anglerange.combine A B) = false ->
  anglerange.isinside (anglerange.overlap A B) v
  = anglerange.isinside A v && anglerange.isinside B v.
Proof.
  intros Ia Ib Hc. apply eq_true_iff_eq. rewrite andb_true_iff.
  split; [now apply overlap_inside_both|]. intros [Ha Hb].
  pose proof Ha as Ha'. pose proof Hb as Hb'.
  apply isinside_true in Ha' as [Ea Pa]. apply isinside_true in Hb' as [Eb Pb].
  destruct (anglerange.fullcircle A) eqn:Fa.
  { unfold anglerange.overlap. rewrite Ea, Eb, Fa. simpl.
    now rewrite isinside_setsorttype. }
  destruct (anglerange.fullcircle B) eqn:Fb.
  { unfold anglerange.overlap. rewrite Ea, Eb, Fa, Fb. simpl. exact Ha. }
  destruct Hc as [Hc|[Hc|Hc]]; try discriminate.
  assert (N : combine_ladder (lo A) (up A) (lo B) (up B) <> Circle).
  { intros C. apply iscircle_combine_ladder in C; try assumption. congruence. }
  destruct Pa as [Pa|Pa]; [discriminate|]. destruct Pb as [Pb|Pb]; [discriminate|].
  rewrite overlap_eq by assumption.
  destruct Ia as [Il1 Iu1], Ib as [Il2 Iu2].
  pose proof (overlap_ladder_exact _ _ _ _ Il1 Iu1 Il2 Iu2) as S.
  destruct (overlap_ladder _ _ _ _) as [| |l u].
  - exfalso. eauto.
  - contradiction.
  - destruct S as [[Rl Ru] (_ & _ & S & _)].
    destruct (install_borders (fresh A) _ _ Rl Ru) as (E1 & E2 & E3 & E4).
    apply isinside_true. rewrite E1, E3, E4. split; [reflexivity|]. right.
    now apply S.
Qed.


(** X3.  When two arcs that are no full circles close the circle between them
    their intersection has two pieces and [overlap] returns one of them: some
    angle of both operands is outside the result. *)
Theorem overlap_returns_one_piece (A B : anglerange.t) :
  anglerange.inrange A -> anglerange.inrange B ->
  anglerange.isempty A = false -> anglerange.isempty B = false ->
  anglerange.fullcircle A = false -> anglerange.fullcircle B = false ->
  anglerange.iscircle (anglerange.combine A B) = true ->
  exists v : angleclass.t,
    angleclass.inrange v /\
    anglerange.isinside A v = true /\ anglerange.isinside B v = true /\
    anglerange.isinside (anglerange.overlap A B) v = false.
Proof.
  intros Ia Ib Ea Eb Fa Fb Hc.
  apply iscircle_combine_ladder in Hc; try assumption.
  rewrite overlap_eq by assumption.
  pose proof Ia as [Il1 Iu1]. pose proof Ib as [Il2 Iu2].
  pose proof (overlap_ladder_exact _ _ _ _ Il1 Iu1 Il2 Iu2) as S.
  destruct (overlap_ladder _ _ _ _) as [| |l u].
  - pose proof (combine_ladder_spec _ _ _ _ Il1 Iu1 Il2 Iu2) as C.
    rewrite Hc in C. destruct C as [[T|T] _]; exfalso.
    + apply (S (lo A)); [unfold inarc; lra|exact T].
    + apply (S (lo B)); [exact T|unfold inarc; lra].
  - contradiction.
  - destruct S as [[Rl Ru] (_ & _ & _ & S)].
    destruct (install_borders (fresh A) _ _ Rl Ru) as (E1 & E2 & E3 & E4).
    destruct (S Hc) as [[P N]|[P N]].
    + exists (anglerange.lowerborder B). split; [exact Il2|].
      split; [apply isinside_true; auto|]. split; [now apply isinside_lower|].
      apply not_true_is_false. intros H. apply isinside_true in H as [_ [H|H]].
      * rewrite E2 in H. discriminate.
      * rewrite E3, E4 in H. contradiction.
    + exists (anglerange.lowerborder A). split; [exact Il1|].
      split; [now apply isinside_lower|]. split; [apply isinside_true; auto|].
      apply not_true_is_false. intros H. apply isinside_true in H as [_ [H|H]].
      * rewrite E2 in H. discriminate.
      * rewrite E3, E4 in H. contradiction.
Qed.

(** X4.  As sets of angles [combine] does not depend on the order of its
    operands. *)
Theorem combine_commutes (a b : anglerange.t) (v : angleclass.t) :
  anglerange.inrange a -> anglerange.inrange b ->
  anglerange.isempty (anglerange.combine a b)
  = anglerange.isempty (anglerange.combine b a)
  /\ anglerange.isinside (anglerange.combine a b) v
     = anglerange.isinside (anglerange.combine b a) v.
Proof.
  intros Ia Ib.
  assert (E : anglerange.isempty (anglerange.combine a b)
              = anglerange.isempty (anglerange.combine b a)).
  { apply eq_true_iff_eq. split; intros H.
    - apply separated_combine_empty; try assumption.
      apply separated_sym. now apply combine_empty_separated.
    - apply separated_combine_empty; try assumption.
      apply separated_sym. now apply combine_empty_separated. }
  split; [exact E|].
  destruct (anglerange.isempty (anglerange.combine a b)) eqn:Eab.
  - symmetry in E.
    assert (Hn : forall r, anglerange.isempty r = true ->
                           anglerange.isinside r v = false).
    { intros r Hr. unfold anglerange.isinside. now rewrite Hr. }
    now rewrite !Hn.
  - symmetry in E. rewrite !combine_inside by assumption. apply orb_comm.
Qed.

(** X5.  The result of [overlap] and of [combine] carries the sort mode of the
    receiver. *)
Theorem result_inherits_sort_mode (a b : anglerange.t) :
  anglerange.sortby (anglerange.overlap a b) = anglerange.sortby a
  /\ anglerange.sortby (anglerange.combine a b) = anglerange.sortby a.
Proof.
  split.
  - unfold anglerange.overlap.
    repeat match goal with
           | |- context [if ?c then _ else _] => destruct c
           end; reflexivity.
  - unfold anglerange.combine.
    repeat match goal with
           | |- context [if ?c then _ else _] => destruct c
           end; reflexivity.
Qed.

(** X6.  The borders of a result obey the invariant of [angleclass] again. *)
Theorem results_stay_in_range (a b : anglerange.t) :
  anglerange.inrange a -> anglerange.inrange b ->
  anglerange.inrange (anglerange.overlap a b)
  /\ anglerange.inrange (anglerange.combine a b).
Proof.
  intros Ia Ib. split; [now apply overlap_inrange|now apply combine_inrange].
Qed.


End MoreArcFacts.

(* ===================================================================== *)
(** * More on the comparison operators and the angle value *)
(* ===================================================================== *)

Section MoreOperatorFacts.
Local Open Scope R_scope.
Import Double Ladder.


(** The scalar stored by [upper - lower] is the clockwise sweep. *)
Lemma op_sub_sweep (r : anglerange.t) :
  anglerange.inrange r ->
  angleclass.value
    (angleclass.op_sub (anglerange.upperborder r) (anglerange.lowerborder r))
  = Cover.sweep r.
Proof.
  intros [[Hl0 Hl1] [Hu0 Hu1]]. unfold Cover.sweep, angleclass.op_sub. simpl.
  destruct (leb _ _) eqn:E.
  - apply leb_true in E. apply shiftinrange_id. lra.
  - apply leb_false in E.
    rewrite <- (shiftinrange_period _ 1).
    replace (2 * M_PI * 1) with (2 * M_PI) by ring.
    apply shiftinrange_id. lra.
Qed.


Lemma op_lt_key (a b : anglerange.t) :
  anglerange.isempty a = false -> anglerange.isempty b = false ->
  anglerange.recognised (anglerange.sortby a) ->
  anglerange.op_lt a b
  = Returns (ltb (Cover.sort_key (anglerange.sortby a) a) (Cover.sort_key (anglerange.sortby a) b))
  /\ anglerange.op_gt a b
     = Returns (ltb (Cover.sort_key (anglerange.sortby a) b) (Cover.sort_key (anglerange.sortby a) a)).
Proof.
  intros Ea Eb Hm. unfold anglerange.op_lt, anglerange.op_gt, Cover.sort_key.
  rewrite Ea, Eb. simpl.
  destruct Hm as [Hm|[Hm|Hm]]; rewrite Hm; simpl; auto.
  unfold angleclass.op_lt, angleclass.op_gt, angleclass.op_sub, gtb. simpl.
  pose proof (shiftinrange_range
                (angleclass.value (anglerange.upperborder a)
                 - angleclass.value (anglerange.lowerborder a))) as Ra.
  pose proof (shiftinrange_range
                (angleclass.value (anglerange.upperborder b)
                 - angleclass.value (anglerange.lowerborder b))) as Rb.
  destruct (anglerange.fullcircle a), (anglerange.fullcircle b); simpl;
    split; f_equal; symmetry;
    first [ apply ltb_true; lra | apply ltb_false; lra | reflexivity ].
Qed.




(** X13.  Switching the circle flag on and off again does not bring an arc
    back: what is left is the arc that holds the angle zero and no other,
    also when the arc was empty before. *)
Theorem setcircle_on_off (a : anglerange.t) (v : angleclass.t) :
  let r := anglerange.setcircle (anglerange.setcircle a true) false in
  anglerange.isempty r = false /\ anglerange.iscircle r = false
  /\ (anglerange.isinside r v = true <-> angleclass.value v = 0).
Proof.
  cbv zeta. split; [reflexivity|]. split; [reflexivity|].
  rewrite isinside_true. simpl. rewrite shiftinrange_zero.
  unfold inarc. split.
  - intros [_ [H|H]]; [discriminate|lra].
  - intros ->. split; [reflexivity|]. right. lra.
Qed.

End MoreOperatorFacts.

(* ===================================================================== *)
(** * More on the set of arcs *)
(* ===================================================================== *)

Section MoreSetFacts.
Local Open Scope R_scope.
Import Double Ladder angleset.

Lemma inside_none_of_empty (r : anglerange.t) (v : angleclass.t) :
  anglerange.isempty r = true -> anglerange.isinside r v = false.
Proof. intros H. unfold anglerange.isinside. now rewrite H. Qed.

Lemma scan_inrange (tl : list anglerange.t) (x : anglerange.t) :
  anglerange.inrange x -> Forall anglerange.inrange tl ->
  anglerange.inrange (fst (scan x tl))
  /\ Forall anglerange.inrange (snd (scan x tl)).
Proof.
  intros Ix. induction tl as [|c tl IH]; intros Il.
  - split; [assumption|constructor].
  - inversion Il; subst. destruct IH as [I1 I2]; [assumption|]. simpl.
    destruct (scan x tl) as [x1 tl1]. simpl in *.
    destruct (negb _); simpl; split; auto. now apply combine_inrange.
Qed.

(** The inner loop neither drops nor invents an angle. *)
Lemma scan_inside (tl : list anglerange.t) (x : anglerange.t) (v : angleclass.t) :
  anglerange.inrange x -> Forall anglerange.inrange tl ->
  anglerange.isinside (fst (scan x tl)) v || Cover.inside_some (snd (scan x tl)) v
  = anglerange.isinside x v || Cover.inside_some tl v.
Proof.
  intros Ix. induction tl as [|c tl IH]; intros Il; [reflexivity|].
  inversion Il; subst. specialize (IH ltac:(assumption)).
  destruct (scan_inrange tl x Ix ltac:(assumption)) as [I1 _]. simpl.
  destruct (scan x tl) as [x1 tl1]. simpl in *.
  destruct (anglerange.isempty (anglerange.combine x1 c)) eqn:E; simpl.
  - rewrite orb_assoc, (orb_comm (anglerange.isinside x1 v)), <- orb_assoc, IH.
    rewrite orb_assoc, (orb_comm (anglerange.isinside c v)), <- orb_assoc.
    reflexivity.
  - rewrite combine_inside by assumption.
    rewrite (orb_comm (anglerange.isinside x1 v)), <- orb_assoc, IH.
    rewrite orb_assoc, (orb_comm (anglerange.isinside c v)), <- orb_assoc.
    reflexivity.
Qed.

Lemma merge_inside (l : list anglerange.t) (v : angleclass.t) :
  Forall anglerange.inrange l ->
  Cover.inside_some (merge l) v = Cover.inside_some l v.
Proof.
  induction l as [|x l IH]; intros Il; [reflexivity|].
  inversion Il; subst. simpl.
  pose proof (scan_inside (merge l) x v ltac:(assumption)
                (proj1 (merge_apart l ltac:(assumption)))) as S.
  destruct (scan x (merge l)) as [x' l']. simpl in *.
  rewrite S, IH by assumption. reflexivity.
Qed.

Lemma scan_length (tl : list anglerange.t) (x : anglerange.t) :
  (length (snd (scan x tl)) <= length tl)%nat.
Proof.
  induction tl as [|c tl IH]; simpl; [lia|].
  destruct (scan x tl) as [x1 tl1]. simpl in *.
  destruct (negb _); simpl; lia.
Qed.

Lemma merge_length (l : list anglerange.t) :
  (length (merge l) <= length l)%nat /\ (l <> [] -> merge l <> []).
Proof.
  induction l as [|x l [IH _]]; simpl; [split; [lia|congruence]|].
  pose proof (scan_length (merge l) x) as S.
  destruct (scan x (merge l)) as [x' l']. simpl in *.
  split; [lia|discriminate].
Qed.


Lemma inside_some_app (l1 l2 : list anglerange.t) (v : angleclass.t) :
  Cover.inside_some (l1 ++ l2) v = Cover.inside_some l1 v || Cover.inside_some l2 v.
Proof. apply existsb_app. Qed.

Lemma add_inside (this : t) (value : anglerange.t) (v : angleclass.t) :
  Forall anglerange.inrange (storage this) -> anglerange.inrange value ->
  Cover.inside_some (storage (add this value)) v
  = Cover.inside_some (storage this) v || anglerange.isinside value v.
Proof.
  intros Il Iv. unfold add.
  destruct (anglerange.isempty value) eqn:E; cbn [negb].
  - rewrite inside_none_of_empty by assumption. now rewrite orb_false_r.
  - rewrite combine_storage. cbn [storage]. unfold push_back_lower.
    rewrite merge_inside, inside_some_app.
    + simpl. now rewrite orb_false_r.
    + apply Forall_app. split; [assumption|]. constructor; [exact Iv|constructor].
Qed.

Lemma add_set_inside (this value : t) (v : angleclass.t) :
  Forall anglerange.inrange (storage this) ->
  Forall anglerange.inrange (storage value) ->
  Cover.inside_some (storage (add_set this value)) v
  = Cover.inside_some (storage this) v || Cover.inside_some (storage value) v.
Proof.
  intros Il Iv. unfold add_set. rewrite combine_storage. cbn [storage].
  rewrite merge_inside, inside_some_app; [reflexivity|].
  apply Forall_app. now split.
Qed.


(** ** What is kept in the storage *)

Lemma combine_stored (a b : anglerange.t) :
  Cover.stored a ->
  anglerange.isempty (anglerange.combine a b) = false ->
  Cover.stored (anglerange.combine a b).
Proof.
  intros [_ Sa] E. split; [exact E|].
  rewrite <- Sa. unfold anglerange.combine.
  repeat match goal with
         | |- context [if ?c then _ else _] => destruct c
         end; reflexivity.
Qed.

Lemma scan_stored (tl : list anglerange.t) (x : anglerange.t) :
  Cover.stored x -> Forall Cover.stored tl ->
  Cover.stored (fst (scan x tl)) /\ Forall Cover.stored (snd (scan x tl)).
Proof.
  intros Sx. induction tl as [|c tl IH]; intros Sl.
  - split; [assumption|constructor].
  - inversion Sl; subst. destruct IH as [S1 S2]; [assumption|]. simpl.
    destruct (scan x tl) as [x1 tl1]. simpl in *.
    destruct (anglerange.isempty (anglerange.combine x1 c)) eqn:E; simpl.
    + split; auto.
    + split; [now apply combine_stored|assumption].
Qed.

Lemma merge_stored (l : list anglerange.t) :
  Forall Cover.stored l -> Forall Cover.stored (merge l).
Proof.
  induction l as [|x l IH]; intros Sl; [constructor|].
  inversion Sl; subst. simpl.
  destruct (scan_stored (merge l) x ltac:(assumption) (IH ltac:(assumption)))
    as [S1 S2].
  destruct (scan x (merge l)) as [x' l']. simpl in *. now constructor.
Qed.

Lemma add_stored (this : t) (value : anglerange.t) :
  Forall Cover.stored (storage this) ->
  Forall Cover.stored (storage (add this value)).
Proof.
  intros Sl. unfold add.
  destruct (anglerange.isempty value) eqn:E; cbn [negb]; [assumption|].
  rewrite combine_storage. apply merge_stored. cbn [storage].
  apply Forall_app. split; [assumption|].
  constructor; [|constructor]. split; [exact E|reflexivity].
Qed.

Lemma add_set_stored (this value : t) :
  Forall Cover.stored (storage this) -> Forall Cover.stored (storage value) ->
  Forall Cover.stored (storage (add_set this value)).
Proof.
  intros Sl Sv. unfold add_set. rewrite combine_storage. apply merge_stored.
  cbn [storage]. apply Forall_app. now split.
Qed.

Lemma fold_add_stored (f : anglerange.t -> anglerange.t)
      (l : list anglerange.t) (acc : t) :
  Forall Cover.stored (storage acc) ->
  Forall Cover.stored
    (storage (fold_left (fun retval i => add retval (f i)) l acc)).
Proof.
  revert acc. induction l as [|i l IH]; intros acc Sa; [exact Sa|].
  simpl. apply IH. now apply add_stored.
Qed.

Lemma overlap_stored (this : t) (other : anglerange.t) :
  Forall Cover.stored (storage (overlap this other)).
Proof. unfold overlap. apply fold_add_stored. constructor. Qed.

Lemma overlap_set_stored (this other : t) :
  Forall Cover.stored (storage (overlap_set this other)).
Proof.
  unfold overlap_set.
  assert (H0 : Forall Cover.stored (storage default)) by constructor.
  revert H0. generalize default.
  induction (storage other) as [|i l IH]; intros acc Sa; [exact Sa|].
  simpl. apply IH. apply add_set_stored; [assumption|apply overlap_stored].
Qed.

Lemma fold_add_consistent (f : anglerange.t -> anglerange.t)
      (l : list anglerange.t) (acc : t) :
  consistent acc = true ->
  consistent (fold_left (fun retval i => add retval (f i)) l acc) = true.
Proof.
  revert acc. induction l as [|i l IH]; intros acc Ha; [exact Ha|].
  simpl. apply IH. unfold add. destruct (negb _); [reflexivity|assumption].
Qed.

Lemma fold_add_set_consistent (g : anglerange.t -> t)
      (l : list anglerange.t) (acc : t) :
  consistent acc = true ->
  consistent (fold_left (fun retval i => add_set retval (g i)) l acc) = true.
Proof.
  revert acc. induction l as [|i l IH]; intros acc Ha; [exact Ha|].
  simpl. apply IH. reflexivity.
Qed.

Lemma reachable_stored (this : t) :
  reachable this ->
  consistent this = true /\ Forall Cover.stored (storage this).
Proof.
  induction 1 as [ | r Ir | l u Il Iu | this value Hr [Hc IH] Iv
                 | this l u Hr [Hc IH]
                 | this value Hr [Hc IH] Hv [Hcv IHv] | this Hr [Hc IH]
                 | this Hr [Hc IH]
                 | this other Hr [Hc IH] Io | this other Hr [Hc IH] Ho [Hco IHo]
                 | this sorted Hr [Hc IH] P ].
  - split; [reflexivity|constructor].
  - unfold of_range. destruct (anglerange.isempty r) eqn:E; simpl.
    + split; [reflexivity|constructor].
    + split; [reflexivity|]. constructor; [|constructor]. now split.
  - split; [reflexivity|]. constructor; [|constructor]. now split.
  - split; [|now apply add_stored].
    unfold add. destruct (negb _); [reflexivity|assumption].
  - split; [reflexivity|]. unfold add_bounds. rewrite combine_storage.
    apply merge_stored. cbn [storage]. apply Forall_app. split; [assumption|].
    constructor; [|constructor]. now split.
  - split; [reflexivity|now apply add_set_stored].
  - split; [exact Hc|constructor].
  - unfold iscircle. rewrite Hc. simpl. now split.
  - split; [|apply overlap_stored].
    unfold overlap. now apply fold_add_consistent.
  - split; [|apply overlap_set_stored].
    unfold overlap_set. now apply fold_add_set_consistent.
  - split; [exact Hc|]. simpl. exact (Permutation_Forall P IH).
Qed.


(** A full circle among arcs that are apart is alone. *)
Lemma circle_is_alone (l : list anglerange.t) (r : anglerange.t) :
  apart l -> Forall Cover.stored l -> In r l ->
  anglerange.iscircle r = true -> l = [r].
Proof.
  intros [_ Hs] Hn Hr Hc.
  apply andb_true_iff in Hc as [Fr Er]. apply negb_true_iff in Er.
  assert (K : forall x, anglerange.isempty x = false ->
                        angleset.separated x r -> False).
  { intros x Ex S. apply (S (anglerange.lowerborder x)).
    - now apply isinside_lower.
    - now apply isinside_full. }
  destruct Hs as [|x l Hx Hs]; [contradiction|].
  inversion Hn as [|? ? [Ex _] Hn']; subst.
  rewrite Forall_forall in Hx.
  destruct Hr as [->|Hr].
  - destruct l as [|y l]; [reflexivity|exfalso].
    inversion Hn' as [|? ? [Ey _] _]; subst.
    apply (K y Ey). apply separated_sym, Hx. now left.
  - exfalso. apply (K x Ex). now apply Hx.
Qed.


(** ** Intersections of sets *)

Lemma add_inrange (this : t) (value : anglerange.t) :
  Forall anglerange.inrange (storage this) -> anglerange.inrange value ->
  Forall anglerange.inrange (storage (add this value)).
Proof.
  intros Il Iv. unfold add. destruct (negb _); [|assumption].
  rewrite combine_storage. apply merge_apart. cbn [storage].
  apply Forall_app. split; [assumption|]. constructor; [exact Iv|constructor].
Qed.

Lemma fold_add_inside (f : anglerange.t -> anglerange.t)
      (l : list anglerange.t) (acc : t) (v : angleclass.t) :
  (forall i, In i l -> anglerange.inrange (f i)) ->
  Forall anglerange.inrange (storage acc) ->
  Cover.inside_some
    (storage (fold_left (fun retval i => add retval (f i)) l acc)) v
  = Cover.inside_some (storage acc) v
    || existsb (fun i => anglerange.isinside (f i) v) l.
Proof.
  revert acc. induction l as [|i l IH]; intros acc Hf Ia.
  - simpl. now rewrite orb_false_r.
  - simpl. rewrite IH.
    + rewrite add_inside; [symmetry; apply orb_assoc| assumption |apply Hf; now left].
    + intros j Hj. apply Hf. now right.
    + apply add_inrange; [assumption|apply Hf; now left].
Qed.

(** The arcs [overlap] walks through: the storage, merged first if the flag
    asks for it. *)
Lemma overlap_inside (this : t) (other : anglerange.t) (v : angleclass.t) :
  Forall anglerange.inrange (storage this) -> anglerange.inrange other ->
  consistent this = true ->
  Cover.inside_some (storage (overlap this other)) v
  = existsb (fun i => anglerange.isinside (anglerange.overlap i other) v)
            (storage this).
Proof.
  intros Il Io Hc. unfold overlap. rewrite Hc. cbn [negb].
  rewrite fold_add_inside.
  - reflexivity.
  - intros i Hi. apply overlap_inrange; [|assumption].
    rewrite Forall_forall in Il. now apply Il.
  - constructor.
Qed.

Lemma set_overlap_sound (this : t) (other : anglerange.t) (v : angleclass.t) :
  reachable this -> anglerange.inrange other ->
  Cover.inside_some (storage (overlap this other)) v = true ->
  Cover.inside_some (storage this) v = true /\
  anglerange.isinside other v = true.
Proof.
  intros Hr Io.
  destruct (reachable_stored this Hr) as [Hc _].
  destruct (reachable_apart this Hr) as [Il _].
  rewrite overlap_inside by assumption. unfold Cover.inside_some.
  intros H. apply existsb_exists in H as [r [Hin H]].
  rewrite Forall_forall in Il.
  apply overlap_inside_both in H as [H1 H2]; [|now apply Il|assumption].
  split; [|exact H2]. apply existsb_exists. eauto.
Qed.


Lemma overlap_arc_inrange (this : t) (other : anglerange.t) :
  Forall anglerange.inrange (storage this) -> anglerange.inrange other ->
  Forall anglerange.inrange (storage (overlap this other)).
Proof. intros. now apply overlap_apart. Qed.



End MoreSetFacts.

(* ===================================================================== *)
(** * The further properties at given arcs *)
(* ===================================================================== *)

Section MoreInstances.
Local Open Scope R_scope.
Import Double Ladder.

Ltac known := pose proof PI_RGT_0; simpl; linear.

(** A quarter arc from 0, an arc from 45 to 180 degrees, an arc that wraps
    from 270 to 90 degrees and an arc from 45 to 315 degrees that bridges its
    gap. *)
Local Abbreviation quarter m := (arc 0 (PI / 2) false m).
Local Abbreviation upper_half m := (arc (PI / 4) PI false m).
Local Abbreviation wrapping := (arc (3 * PI / 2) (PI / 2) false anglerange.SRT_SIZE).
Local Abbreviation bridging := (arc (PI / 4) (7 * PI / 4) false anglerange.SRT_SIZE).

Lemma quarter_inrange m : anglerange.inrange (quarter m).
Proof. apply arc_inrange; known. Qed.

Lemma upper_half_inrange m : anglerange.inrange (upper_half m).
Proof. apply arc_inrange; known. Qed.

Lemma wrapping_inrange : anglerange.inrange wrapping.
Proof. apply arc_inrange; known. Qed.

Lemma bridging_inrange : anglerange.inrange bridging.
Proof. apply arc_inrange; known. Qed.

Lemma empty_result_iff_no_common_angle_witness :
  (anglerange.isempty
     (anglerange.combine (quarter anglerange.SRT_SIZE)
                         (upper_half anglerange.SRT_SIZE)) = true <->
   angleset.separated (quarter anglerange.SRT_SIZE) (upper_half anglerange.SRT_SIZE))
  /\ (anglerange.isempty
        (anglerange.overlap (quarter anglerange.SRT_SIZE)
                            (upper_half anglerange.SRT_SIZE)) = true <->
      angleset.separated (quarter anglerange.SRT_SIZE)
                         (upper_half anglerange.SRT_SIZE)).
Proof.
  exact (empty_result_iff_no_common_angle _ _
           (quarter_inrange _) (upper_half_inrange _)).
Defined.


Lemma overlap_returns_one_piece_witness :
  anglerange.iscircle (anglerange.combine wrapping bridging) = true
  /\ exists v : angleclass.t,
       angleclass.inrange v /\
       anglerange.isinside wrapping v = true /\
       anglerange.isinside bridging v = true /\
       anglerange.isinside (anglerange.overlap wrapping bridging) v = false.
Proof.
  assert (H : anglerange.iscircle (anglerange.combine wrapping bridging) = true).
  { evaluate_arcs. reflexivity. }
  split; [exact H|].
  exact (overlap_returns_one_piece _ _ wrapping_inrange bridging_inrange
           eq_refl eq_refl eq_refl eq_refl H).
Defined.

Lemma combine_commutes_witness :
  anglerange.isempty (anglerange.combine wrapping bridging)
  = anglerange.isempty (anglerange.combine bridging wrapping)
  /\ anglerange.isinside (anglerange.combine wrapping bridging) (angleclass.mk PI)
     = anglerange.isinside (anglerange.combine bridging wrapping) (angleclass.mk PI).
Proof.
  exact (combine_commutes _ _ _ wrapping_inrange bridging_inrange).
Defined.

Lemma results_stay_in_range_witness :
  anglerange.inrange (anglerange.overlap wrapping bridging)
  /\ anglerange.inrange (anglerange.combine wrapping bridging).
Proof.
  exact (results_stay_in_range _ _ wrapping_inrange bridging_inrange).
Defined.






Local Abbreviation two_arcs :=
  (angleset.mk [quarter anglerange.SRT_LOWER; upper_half anglerange.SRT_LOWER] true).

Lemma two_arcs_inrange :
  Forall anglerange.inrange (angleset.storage two_arcs).
Proof.
  constructor; [apply quarter_inrange|].
  constructor; [apply upper_half_inrange|constructor].
Qed.



Local Abbreviation one_arc :=
  (angleset.of_bounds (angleclass.of_double 0) (angleclass.of_double 1)).
Local Abbreviation its_arc :=
  (anglerange.setsorttype
     (anglerange.make (angleclass.of_double 0) (angleclass.of_double 1))
     anglerange.SRT_LOWER).

Lemma one_arc_reachable : angleset.reachable one_arc.
Proof. constructor; apply of_double_inrange. Qed.






End MoreInstances.
